(** * The list-then-watch cache of [kube-client]: Store, Informer, Reflector, BackoffManager

    A shallow embedding of [lib/cache/Store.js], [lib/cache/Informer.js] and
    [lib/cache/Reflector.js] (with the [BackoffManager] class and the
    [randomize] helper that the latter file declares), followed by the
    properties the cache specification states about them.

    - A JavaScript [Map] used as a key → object mapping is a [gmap]; a key is
      whatever [lodash.get] returns, so it is an [option string] whose [None]
      is [undefined].
    - Numbers are IEEE 754 doubles: a rational that the format holds, an
      infinity or [NaN], every operation rounding to the nearest double.
      [Math.pow] and [Math.log] are those of the engine.
    - Asynchronous calls are made sequential: the answers of the API server
      are given to the functions as scripts, and every request is logged. *)

From Stdlib Require Import ZArith QArith Qround Qminmax Qpower Qreduction Lqa Lia List.
From Stdlib.Strings Require Import Byte.
From Stdlib Require Import ssreflect.
From stdpp Require Import base option strings gmap pretty.

Set Warnings "-rewrite-rw".

Open Scope string_scope.

(** ** Resource objects *)

(** [metadata] of a resource: the two fields the cache reads, and the name. *)
Module ObjectMeta.
Record t := {
  uid : option string;
  name : option string;
  resourceVersion : option string
}.
End ObjectMeta.

(** A resource object: the envelope fields [apiVersion] and [kind], the
    [metadata] mapping (which may be missing), and the rest of the object
    as an opaque payload. A field that is [None] is [undefined]. *)
Module KObject.
Record t := {
  apiVersion : option string;
  kind : option string;
  metadata : option ObjectMeta.t;
  payload : string
}.

(** [get(object, 'metadata.uid')] *)
Definition metadata_uid (o : t) : option string :=
  match metadata o with
  | Some m => ObjectMeta.uid m
  | None => None
  end.

(** [get(object, 'metadata.resourceVersion')] *)
Definition metadata_resourceVersion (o : t) : option string :=
  match metadata o with
  | Some m => ObjectMeta.resourceVersion m
  | None => None
  end.
End KObject.

(** The value of a store key: [get(object, keyPath)], [None] for [undefined]. *)
Abbreviation Key := (option string).

(** ** Store.js *)

Module Store.

(** [kKeyPath] is held as the accessor that [get(_, keyPath)] denotes;
    [kHasSynced] is the promise: [None] while pending, [Some v] once
    resolved with [v]. *)
Record t := {
  kStore : gmap Key KObject.t;
  kHasSynced : option bool;
  kKeyPath : KObject.t → Key
}.

(** [new Store(map, { keyPath })]: the promise is pending. *)
Definition new (map : gmap Key KObject.t) (keyPath : KObject.t → Key) : t :=
  {| kStore := map; kHasSynced := None; kKeyPath := keyPath |}.

(** [new Store()] with the default map and the default options. *)
Definition create : t := new ∅ KObject.metadata_uid.

Definition with_kStore (m : gmap Key KObject.t) (s : t) : t :=
  {| kStore := m; kHasSynced := kHasSynced s; kKeyPath := kKeyPath s |}.

Definition kKeyFunc (s : t) (object : KObject.t) : Key := kKeyPath s object.

Definition hasSynced (s : t) : option bool := kHasSynced s.

(** Resolving a promise a second time has no effect. *)
Definition kSetSynced (v : bool) (s : t) : t :=
  {| kStore := kStore s;
     kHasSynced := match kHasSynced s with
                   | None => Some v
                   | Some w => Some w
                   end;
     kKeyPath := kKeyPath s |}.

(** The keys and the values, in an order of the map's own: the order of
    insertion that a [Map] keeps is not modelled. *)
Definition listKeys (s : t) : list Key := (map_to_list (kStore s)).*1.

Definition list (s : t) : Datatypes.list KObject.t := (map_to_list (kStore s)).*2.

Definition clear (s : t) : t := with_kStore ∅ s.

Definition delete (object : KObject.t) (s : t) : t :=
  let key := kKeyFunc s object in
  with_kStore (base.delete key (kStore s)) s.

Definition getByKey (key : Key) (s : t) : option KObject.t := kStore s !! key.

Definition get (object : KObject.t) (s : t) : option KObject.t :=
  let key := kKeyFunc s object in
  getByKey key s.

Definition hasByKey (key : Key) (s : t) : bool :=
  bool_decide (is_Some (kStore s !! key)).

Definition has (object : KObject.t) (s : t) : bool :=
  let key := kKeyFunc s object in
  hasByKey key s.

Definition add (object : KObject.t) (s : t) : t :=
  let key := kKeyFunc s object in
  with_kStore (<[key := object]> (kStore s)) s.

Definition update (object : KObject.t) (s : t) : t :=
  let key := kKeyFunc s object in
  with_kStore (<[key := object]> (kStore s)) s.

(** The loop [for (const object of items) this[kStore].set(key, object)]. *)
Fixpoint set_all (items : Datatypes.list KObject.t) (s : t) : t :=
  match items with
  | [] => s
  | object :: rest =>
      let key := kKeyFunc s object in
      set_all rest (with_kStore (<[key := object]> (kStore s)) s)
  end.

Definition replace (items : Datatypes.list KObject.t) (s : t) : t :=
  kSetSynced true (set_all items (clear s)).

(** The calls that change a store, and a sequence of them. *)
Inductive Call :=
| Clear
| Delete (object : KObject.t)
| Add (object : KObject.t)
| Update (object : KObject.t)
| Replace (items : Datatypes.list KObject.t).

Definition call (c : Call) (s : t) : t :=
  match c with
  | Clear => clear s
  | Delete object => delete object s
  | Add object => add object s
  | Update object => update object s
  | Replace items => replace items s
  end.

Definition calls (cs : Datatypes.list Call) (s : t) : t :=
  foldl (λ s c, call c s) s cs.

(** The item of [items] that a key derived from them stands for: the last
    one with that key. *)
Fixpoint latest (keyFunc : KObject.t → Key) (key : Key)
    (items : Datatypes.list KObject.t) : option KObject.t :=
  match items with
  | [] => None
  | object :: rest =>
      match latest keyFunc key rest with
      | Some o => Some o
      | None => if bool_decide (keyFunc object = key) then Some object else None
      end
  end.

End Store.

(** ** JavaScript numbers

    A number is an IEEE 754 double: a rational that the format holds, one of
    the two infinities, or [NaN]. An arithmetic operation is the exact
    operation followed by the rounding to the nearest double, a tie going
    to the even significand. The two zeros are one number here: this code
    never divides by a number that it computed, so the sign of a zero
    cannot be observed, but for the option [min] given as [-0], which is
    left out. *)

Module JSNumber.
Local Open Scope Q_scope.

Inductive ext (A : Type) := NaN | NegInfinity | Infinity | Finite (a : A).
Arguments NaN {A}.
Arguments NegInfinity {A}.
Arguments Infinity {A}.
Arguments Finite {A} a.

Abbreviation number := (ext Q).

Definition Qlt_bool (x y : Q) : bool := negb (Qle_bool y x).

(** *** Rounding to the nearest double *)

(** The exponent [e] of a positive rational: [2^e <= x < 2^(e+1)]. *)
Definition exponent (x : Q) : Z :=
  let e := (Z.log2 (Qnum x) - Z.log2 (Zpos (Qden x)))%Z in
  if Qle_bool (2 ^ e) x then e else (e - 1)%Z.

(** The nearest integer, a tie going to the even one. *)
Definition nearest_even (x : Q) : Z :=
  let n := Qfloor x in
  match Qcompare (x - inject_Z n) (1 # 2) with
  | Lt => n
  | Gt => (n + 1)%Z
  | Eq => if Z.even n then n else (n + 1)%Z
  end.

(** The exponent of the last place of the doubles around a positive [x]:
    53 significant bits, and no place below [2^-1074]. *)
Definition quantum (x : Q) : Z := Z.max (exponent x - 52) (-1074).

Definition round_pos (x : Q) : Q :=
  inject_Z (nearest_even (x / 2 ^ quantum x)) * 2 ^ quantum x.

(** The double that a real result becomes; a result that rounds to [2^1024]
    or beyond overflows. The rational of a finite double is in lowest
    terms. *)
Definition fl (x : Q) : number :=
  match Qcompare x 0 with
  | Eq => Finite 0
  | Gt =>
      let y := round_pos x in
      if Qle_bool (2 ^ 1024) y then Infinity else Finite (Qred y)
  | Lt =>
      let y := round_pos (- x) in
      if Qle_bool (2 ^ 1024) y then NegInfinity else Finite (Qred (- y))
  end.

(** *** The operators *)

Definition of_Z (n : Z) : number := Finite (inject_Z n).

Definition of_nat (n : nat) : number := of_Z (Z.of_nat n).

Definition infinity (positive : bool) : number :=
  if positive then Infinity else NegInfinity.

(** [x + y] *)
Definition add (x y : number) : number :=
  match x, y with
  | NaN, _ | _, NaN => NaN
  | Infinity, NegInfinity | NegInfinity, Infinity => NaN
  | Infinity, _ | _, Infinity => Infinity
  | NegInfinity, _ | _, NegInfinity => NegInfinity
  | Finite a, Finite b => fl (a + b)
  end.

(** [x - y] *)
Definition sub (x y : number) : number :=
  match x, y with
  | NaN, _ | _, NaN => NaN
  | Infinity, Infinity | NegInfinity, NegInfinity => NaN
  | Infinity, _ | _, NegInfinity => Infinity
  | NegInfinity, _ | _, Infinity => NegInfinity
  | Finite a, Finite b => fl (a - b)
  end.

(** [x * y] *)
Definition mul (x y : number) : number :=
  match x, y with
  | NaN, _ | _, NaN => NaN
  | Finite a, Finite b => fl (a * b)
  | Finite a, Infinity | Infinity, Finite a =>
      if Qeq_bool a 0 then NaN else infinity (Qlt_bool 0 a)
  | Finite a, NegInfinity | NegInfinity, Finite a =>
      if Qeq_bool a 0 then NaN else infinity (Qlt_bool a 0)
  | Infinity, Infinity | NegInfinity, NegInfinity => Infinity
  | Infinity, NegInfinity | NegInfinity, Infinity => NegInfinity
  end.

(** [x / y]; a zero divisor is [+0]. *)
Definition div (x y : number) : number :=
  match x, y with
  | NaN, _ | _, NaN => NaN
  | Finite a, Finite b =>
      if Qeq_bool b 0 then
        if Qeq_bool a 0 then NaN else infinity (Qlt_bool 0 a)
      else fl (a / b)
  | Finite _, (Infinity | NegInfinity) => Finite 0
  | Infinity, Finite b => infinity (Qle_bool 0 b)
  | NegInfinity, Finite b => infinity (Qlt_bool b 0)
  | (Infinity | NegInfinity), (Infinity | NegInfinity) => NaN
  end.

(** [x < y], [x > y] and [x <= y]: false when an operand is [NaN]. *)
Definition lt (x y : number) : bool :=
  match x, y with
  | NaN, _ | _, NaN => false
  | _, NegInfinity | Infinity, _ => false
  | NegInfinity, _ | _, Infinity => true
  | Finite a, Finite b => Qlt_bool a b
  end.

Definition gt (x y : number) : bool := lt y x.

Definition le (x y : number) : bool :=
  match x, y with
  | NaN, _ | _, NaN => false
  | NegInfinity, _ | _, Infinity => true
  | _, NegInfinity | Infinity, _ => false
  | Finite a, Finite b => Qle_bool a b
  end.

(** A number as a condition: zero and [NaN] are falsy. *)
Definition truthy (x : number) : bool :=
  match x with
  | NaN => false
  | Finite a => negb (Qeq_bool a 0)
  | Infinity | NegInfinity => true
  end.

Definition Math_floor (x : number) : number :=
  match x with
  | Finite a => of_Z (Qfloor a)
  | _ => x
  end.

(** [Math.round]: the nearest integer, a half rounded up. *)
Definition Math_round (x : number) : number :=
  match x with
  | Finite a => of_Z (Qfloor (a + (1 # 2)))
  | _ => x
  end.

Definition Math_min (x y : number) : number :=
  match x, y with
  | NaN, _ | _, NaN => NaN
  | NegInfinity, _ | _, NegInfinity => NegInfinity
  | Infinity, z | z, Infinity => z
  | Finite a, Finite b => if Qle_bool a b then x else y
  end.

(** *** The engine

    ECMAScript leaves the values of [Math.pow] and [Math.log] to the
    engine, as implementation-approximated values, outside of the special
    cases that it lists: the engine gives the power of a finite base other
    than zero to a positive integer, which is a number and not [NaN], and
    the logarithm of a positive finite number other than 1. *)
Class Engine := {
  engine_pow : Q → nat → number;
  engine_log : Q → number;
  engine_pow_number : ∀ x n, engine_pow x n ≠ NaN
}.

(** [Math.pow(x, n)] for an exponent that is a natural number. *)
Definition Math_pow {engine : Engine} (x : number) (n : nat) : number :=
  match n with
  | O => of_Z 1
  | S _ =>
      match x with
      | NaN => NaN
      | Infinity => Infinity
      | NegInfinity => if Nat.odd n then NegInfinity else Infinity
      | Finite a => if Qeq_bool a 0 then of_Z 0 else engine_pow a n
      end
  end.

Definition Math_log {engine : Engine} (x : number) : number :=
  match x with
  | NaN | NegInfinity => NaN
  | Infinity => Infinity
  | Finite a =>
      if Qlt_bool a 0 then NaN
      else if Qeq_bool a 0 then NegInfinity
      else if Qeq_bool a 1 then of_Z 0
      else engine_log a
  end.

End JSNumber.

(** ** Reflector.js: [randomize] and [BackoffManager]

    [Math.random()] is an argument: the draw [random], with [0 <= random < 1]. *)

Definition randomize (random : Q) (duration : JSNumber.number) : JSNumber.number :=
  JSNumber.Math_round
    (JSNumber.mul duration (JSNumber.add (JSNumber.Finite random) (JSNumber.of_Z 1))).

Definition getTypeName (apiVersion kind : string) : string :=
  apiVersion ++ ", Kind=" ++ kind.

Module BackoffManager.
Import JSNumber.

(** The options of the constructor; a missing option has its default. *)
Record options := {
  opt_min : number;
  opt_max : number;
  opt_resetDuration : number;
  opt_factor : number;
  opt_jitter : number
}.

(** The literal [0.1]: the double nearest to one tenth. *)
Definition one_tenth : number := Eval vm_compute in fl (1 # 10).

Definition defaults : options :=
  {| opt_min := of_Z 800;
     opt_max := of_Z 15000;
     opt_resetDuration := of_Z 60000;
     opt_factor := Finite (3 # 2);
     opt_jitter := one_tenth |}.

(** [timeoutId] is the pending idle timer, with its delay. *)
Record t := {
  min : number;
  max : number;
  factor : number;
  jitter : number;
  resetDuration : number;
  attempt : nat;
  timeoutId : option number
}.

Definition create (o : options) : t :=
  {| min := opt_min o;
     max := opt_max o;
     factor := opt_factor o;
     jitter := if gt (opt_jitter o) (of_Z 0) && le (opt_jitter o) (of_Z 1)
               then opt_jitter o else of_Z 0;
     resetDuration := opt_resetDuration o;
     attempt := 0;
     timeoutId := None |}.

Definition with_attempt (n : nat) (b : t) : t :=
  {| min := min b; max := max b; factor := factor b; jitter := jitter b;
     resetDuration := resetDuration b; attempt := n;
     timeoutId := timeoutId b |}.

Definition with_timeoutId (i : option number) (b : t) : t :=
  {| min := min b; max := max b; factor := factor b; jitter := jitter b;
     resetDuration := resetDuration b; attempt := attempt b;
     timeoutId := i |}.

Definition reset (b : t) : t := with_attempt 0 b.

Definition clearTimeout (b : t) : t := with_timeoutId None b.

Section Duration.
Context {engine : Engine}.

(** [Math.floor(Math.log(this.max / this.min) / Math.log(this.factor))]. *)
Definition threshold (b : t) : number :=
  Math_floor (div (Math_log (div (max b) (min b))) (Math_log (factor b))).

Definition duration (random : Q) (b : t) : number * t :=
  let b := clearTimeout b in
  let b := with_timeoutId (Some (resetDuration b)) b in
  let attempt := attempt b in
  let b := with_attempt (S attempt) b in
  if gt (of_nat attempt) (threshold b) then (max b, b)
  else
    let duration := mul (min b) (Math_pow (factor b) attempt) in
    let duration :=
      if truthy (jitter b)
      then Math_floor
             (mul (add (of_Z 1)
                     (mul (jitter b) (sub (mul (of_Z 2) (Finite random)) (of_Z 1))))
                duration)
      else duration in
    (Math_min (Math_floor duration) (max b), b).

(** The manager after [k] calls of [duration], none of them followed by a
    reset; [random i] is the draw of call [i]. *)
Fixpoint after (k : nat) (random : nat → Q) (b : t) : t :=
  match k with
  | O => b
  | S k' => snd (duration (random k') (after k' random b))
  end.

(** What call number [k] (from 0) of [duration] returns. *)
Definition nth_duration (k : nat) (random : nat → Q) (b : t) : number :=
  fst (duration (random k) (after k random b)).

End Duration.

End BackoffManager.

(** ** The collaborators of the Reflector *)

(** The store that a Reflector is given: an object with the four mutation
    callbacks and [setRefreshing]. The stores of this package do not define
    [setRefreshing], so the method is optional: calling a method that an
    object lacks throws a [TypeError]. *)
Module StoreSink.
Class t (S : Type) := {
  replace : list KObject.t → S → S;
  add : KObject.t → S → S;
  update : KObject.t → S → S;
  delete : KObject.t → S → S;
  setRefreshing : option (S → S)
}.
End StoreSink.

(** Modelled from the spec: the error discriminators of [../ApiErrors], a
    module that [Reflector.js] requires and whose source is missing. They are
    pure predicates on an error value; [StatusError] builds the error of an
    [ERROR] watch event from its object. [Error] and [TypeError] are the
    constructors of the language. *)
Module ApiErrors.
Class t (E : Type) := {
  isExpiredError : E → bool;
  isConnectionRefused : E → bool;
  isTooLargeResourceVersionError : E → bool;
  StatusError : KObject.t → E;
  Error : string → E;
  TypeError : string → E
}.
End ApiErrors.

(** ListWatcher.js: the attributes that the Reflector reads. [agent] is the
    connection agent when it is present and has a [destroy] function, with
    the number of calls of [destroy] made on it. *)
Record ListWatcher := {
  group : option string;
  version : string;
  names : option (option string);
  agent : option nat
}.

(** The answer to a list call: [metadata.resourceVersion],
    [metadata.paginated] and [items]. *)
Record ListResult := {
  list_resourceVersion : string;
  list_paginated : bool;
  items : list KObject.t
}.

(** What a watch stream yields: an [Error] value, or a [{type, object}]
    record. *)
Inductive WatchData (E : Type) :=
| DataError (e : E)
| DataEvent (type : string) (object : KObject.t).
Arguments DataError {E} e.
Arguments DataEvent {E} type object.

(** A watch stream: the data it yields until the server closes it, and the
    milliseconds that it lasted. *)
Record WatchStream (E : Type) := {
  events : list (WatchData E);
  elapsed : Q
}.
Arguments events {E} _.
Arguments elapsed {E} _.

(** Modelled from the spec: [ListPager], a module that [Reflector.js]
    requires and whose source is missing, forwards the resource version of
    the caller and lists unpaginated when its [pageSize] is zero. A request
    is what the Reflector asks of the outside, in the order it asks; a list
    call is logged with the page size of the pager, [None] for the default
    that [ListPager.create] sets and [Some 0] for an unpaginated list. *)
Inductive Request :=
| ListRequest (resourceVersion : string) (pageSize : option Z)
| WatchRequest (allowWatchBookmarks : bool) (timeoutSeconds : JSNumber.number)
    (resourceVersion : string)
| Delay (milliseconds : JSNumber.number).

(** The outside: the answers to the list calls and to the watch calls, in
    order, each a result or a thrown error; the draws of [Math.random()];
    the requests made so far, the latest last. *)
Record Server (E : Type) := {
  lists : list (ListResult + E);
  watches : list (WatchStream E + E);
  random : nat → Q;
  drawn : nat;
  requests : list Request
}.
Arguments lists {E} _.
Arguments watches {E} _.
Arguments random {E} _.
Arguments drawn {E} _.
Arguments requests {E} _.

(** How a call ends: it returns, it throws, or it waits for an answer that
    the script of the server does not hold. *)
Inductive Completion (E : Type) :=
| Returned
| Thrown (e : E)
| Pending.
Arguments Returned {E}.
Arguments Thrown {E} e.
Arguments Pending {E}.

(** ** Reflector.js: the [Reflector] class *)

Module Reflector.
Import JSNumber.

Section Reflector.
Context {S E : Type} {sink : StoreSink.t S} {errors : ApiErrors.t E}.
Context {engine : Engine}.

Record t := {
  listWatcher : ListWatcher;
  store : S;
  isLastSyncResourceVersionUnavailable : bool;
  lastSyncResourceVersion : string;
  paginatedResult : bool;
  stopRequested : bool;
  backoffManager : BackoffManager.t
}.

(** [moment.duration(1, 'seconds').asMilliseconds()] *)
Definition period : number := of_Z 1000.
(** [moment.duration(5, 'minutes').asSeconds()] *)
Definition minWatchTimeout : number := of_Z 300.

Definition create (listWatcher : ListWatcher) (store : S) : t :=
  {| listWatcher := listWatcher;
     store := store;
     isLastSyncResourceVersionUnavailable := false;
     lastSyncResourceVersion := EmptyString;
     paginatedResult := false;
     stopRequested := false;
     backoffManager := BackoffManager.create BackoffManager.defaults |}.

Definition with_listWatcher (l : ListWatcher) (r : t) : t :=
  {| listWatcher := l; store := store r;
     isLastSyncResourceVersionUnavailable := isLastSyncResourceVersionUnavailable r;
     lastSyncResourceVersion := lastSyncResourceVersion r;
     paginatedResult := paginatedResult r; stopRequested := stopRequested r;
     backoffManager := backoffManager r |}.

Definition with_store (s : S) (r : t) : t :=
  {| listWatcher := listWatcher r; store := s;
     isLastSyncResourceVersionUnavailable := isLastSyncResourceVersionUnavailable r;
     lastSyncResourceVersion := lastSyncResourceVersion r;
     paginatedResult := paginatedResult r; stopRequested := stopRequested r;
     backoffManager := backoffManager r |}.

Definition with_isLastSyncResourceVersionUnavailable (b : bool) (r : t) : t :=
  {| listWatcher := listWatcher r; store := store r;
     isLastSyncResourceVersionUnavailable := b;
     lastSyncResourceVersion := lastSyncResourceVersion r;
     paginatedResult := paginatedResult r; stopRequested := stopRequested r;
     backoffManager := backoffManager r |}.

Definition with_lastSyncResourceVersion (v : string) (r : t) : t :=
  {| listWatcher := listWatcher r; store := store r;
     isLastSyncResourceVersionUnavailable := isLastSyncResourceVersionUnavailable r;
     lastSyncResourceVersion := v;
     paginatedResult := paginatedResult r; stopRequested := stopRequested r;
     backoffManager := backoffManager r |}.

Definition with_paginatedResult (b : bool) (r : t) : t :=
  {| listWatcher := listWatcher r; store := store r;
     isLastSyncResourceVersionUnavailable := isLastSyncResourceVersionUnavailable r;
     lastSyncResourceVersion := lastSyncResourceVersion r;
     paginatedResult := b; stopRequested := stopRequested r;
     backoffManager := backoffManager r |}.

Definition with_stopRequested (b : bool) (r : t) : t :=
  {| listWatcher := listWatcher r; store := store r;
     isLastSyncResourceVersionUnavailable := isLastSyncResourceVersionUnavailable r;
     lastSyncResourceVersion := lastSyncResourceVersion r;
     paginatedResult := paginatedResult r; stopRequested := b;
     backoffManager := backoffManager r |}.

Definition with_backoffManager (b : BackoffManager.t) (r : t) : t :=
  {| listWatcher := listWatcher r; store := store r;
     isLastSyncResourceVersionUnavailable := isLastSyncResourceVersionUnavailable r;
     lastSyncResourceVersion := lastSyncResourceVersion r;
     paginatedResult := paginatedResult r; stopRequested := stopRequested r;
     backoffManager := b |}.

(** A string is truthy when it is present and not empty. *)
Definition truthy (v : option string) : bool :=
  match v with
  | Some s => negb (String.eqb s EmptyString)
  | None => false
  end.

Definition apiVersion (r : t) : string :=
  let l := listWatcher r in
  if truthy (group l)
  then default EmptyString (group l) ++ "/" ++ version l
  else version l.

Definition kind (r : t) : option string :=
  match names (listWatcher r) with
  | Some names => names
  | None => None
  end.

Definition expectedTypeName (r : t) : string :=
  getTypeName (apiVersion r) (default "undefined" (kind r)).

Definition relistResourceVersion (r : t) : string :=
  if isLastSyncResourceVersionUnavailable r then EmptyString
  else if String.eqb (lastSyncResourceVersion r) EmptyString then "0"
  else lastSyncResourceVersion r.

Definition stop (r : t) : t :=
  let r := with_stopRequested true r in
  let l := listWatcher r in
  let r :=
    match agent l with
    | Some destroyed =>
        with_listWatcher
          {| group := group l; version := version l; names := names l;
             agent := Some (Datatypes.S destroyed) |} r
    | None => r
    end in
  with_backoffManager (BackoffManager.clearTimeout (backoffManager r)) r.

(** *** The outside *)

Definition log_request (q : Request) (w : Server E) : Server E :=
  {| lists := lists w; watches := watches w; random := random w;
     drawn := drawn w; requests := requests w ++ [q] |}.

(** A draw of the script as a value of [Math.random()], which is a number
    in [0, 1): a draw outside of that range counts as 0. *)
Definition draw (u : Q) : Q :=
  if Qle_bool 0 u && Qlt_bool u 1 then u else 0%Q.

(** [Math.random()] *)
Definition Math_random (w : Server E) : Q * Server E :=
  (draw (random w (drawn w)),
   {| lists := lists w; watches := watches w; random := random w;
      drawn := Datatypes.S (drawn w); requests := requests w |}).

(** [await delay(ms)] *)
Definition delay (ms : number) (w : Server E) : Server E :=
  log_request (Delay ms) w.

(** [await pager.list({ resourceVersion })]: [None] when the script holds
    no further answer. *)
Definition pager_list (resourceVersion : string) (pageSize : option Z)
    (w : Server E) : option (ListResult + E) * Server E :=
  let w := log_request (ListRequest resourceVersion pageSize) w in
  match lists w with
  | [] => (None, w)
  | answer :: rest =>
      (Some answer,
       {| lists := rest; watches := watches w; random := random w;
          drawn := drawn w; requests := requests w |})
  end.

(** *** watchHandler *)

(** The body of the loop [for await (const data of asyncIterable)], for
    one [data]: the Reflector after it, and the error when it throws. *)
Definition handle (data : WatchData E) (r : t) : option E * t :=
  match data with
  | DataError e => (Some e, r)
  | DataEvent type object =>
      if String.eqb type "ERROR" then (Some (ApiErrors.StatusError object), r)
      else
        let resourceVersion := KObject.metadata_resourceVersion object in
        if negb (bool_decide (KObject.apiVersion object = Some (apiVersion r)))
           || negb (bool_decide (KObject.kind object = kind r))
        then (None, r)
        else
          let r :=
            if String.eqb type "ADDED"
            then with_store (StoreSink.add object (store r)) r
            else if String.eqb type "MODIFIED"
            then with_store (StoreSink.update object (store r)) r
            else if String.eqb type "DELETED"
            then with_store (StoreSink.delete object (store r)) r
            else r in
          if truthy resourceVersion
          then (None, with_lastSyncResourceVersion (default EmptyString resourceVersion) r)
          else (None, r)
  end.

(** The loop over the stream: it ends at the first error thrown. *)
Fixpoint handle_all (stream : list (WatchData E)) (r : t) : option E * t :=
  match stream with
  | [] => (None, r)
  | data :: rest =>
      match handle data r with
      | (Some e, r) => (Some e, r)
      | (None, r) => handle_all rest r
      end
  end.

Definition watchHandler (asyncIterable : WatchStream E) (r : t) : option E * t :=
  let count := length (events asyncIterable) in
  match handle_all (events asyncIterable) r with
  | (Some e, r) => (Some e, r)
  | (None, r) =>
      if Qlt_bool (elapsed asyncIterable) 1000 && Nat.eqb count 0
      then (Some (ApiErrors.Error
                    ("Very short watch " ++ expectedTypeName r ++
                     " - watch lasted less than a second and no items received")),
            r)
      else (None, r)
  end.

(** *** listAndWatch *)

Definition set_watches (script : list (WatchStream E + E)) (w : Server E)
    : Server E :=
  {| lists := lists w; watches := script; random := random w;
     drawn := drawn w; requests := requests w |}.

(** The loop [while (!this.stopRequested)] that watches, over the answers
    that the script still holds. *)
Fixpoint watch_loop (script : list (WatchStream E + E)) (r : t) (w : Server E)
    : Completion E * t * Server E :=
  if stopRequested r then (Returned, r, w)
  else
    let '(u, w) := Math_random w in
    let timeoutSeconds := randomize u minWatchTimeout in
    if stopRequested r then (Returned, r, w)
    else
      let w := log_request
                 (WatchRequest true timeoutSeconds (lastSyncResourceVersion r)) w in
      match script with
      | [] => (Pending, r, w)
      | answer :: rest =>
          let w := set_watches rest w in
          let '(thrown, r) :=
            match answer with
            | inl asyncIterable => watchHandler asyncIterable r
            | inr err => (Some err, r)
            end in
          match thrown with
          | None => watch_loop rest r w
          | Some err =>
              if ApiErrors.isConnectionRefused err then
                let '(u, w) := Math_random w in
                let w := delay (randomize u period) w in
                watch_loop rest r w
              else (Returned, r, w)
          end
      end.

(** The page size that [listAndWatch] leaves on the pager. *)
Definition pageSize (r : t) (resourceVersion : string) : option Z :=
  if paginatedResult r then None
  else if negb (String.eqb resourceVersion EmptyString) && negb (String.eqb resourceVersion "0")
  then Some 0%Z
  else None.

(** The statements of [listAndWatch] after a list that succeeded. *)
Definition list_succeeded (options_resourceVersion : string) (list : ListResult)
    (r : t) (w : Server E) : Completion E * t * Server E :=
  let resourceVersion := list_resourceVersion list in
  let paginatedResult := list_paginated list in
  let r :=
    if String.eqb options_resourceVersion "0" && paginatedResult
    then with_paginatedResult true r else r in
  let r := with_isLastSyncResourceVersionUnavailable false r in
  let r := with_store (StoreSink.replace (items list) (store r)) r in
  let r := with_lastSyncResourceVersion resourceVersion r in
  watch_loop (watches w) r w.

Definition listAndWatch (r : t) (w : Server E) : Completion E * t * Server E :=
  let options_resourceVersion := relistResourceVersion r in
  let pageSize := pageSize r options_resourceVersion in
  match StoreSink.setRefreshing with
  | None =>
      (Thrown (ApiErrors.TypeError "this.store.setRefreshing is not a function"),
       r, w)
  | Some setRefreshing =>
      let r := with_store (setRefreshing (store r)) r in
      match pager_list options_resourceVersion pageSize w with
      | (None, w) => (Pending, r, w)
      | (Some (inl list), w) => list_succeeded options_resourceVersion list r w
      | (Some (inr err), w) =>
          if ApiErrors.isExpiredError err
             || ApiErrors.isTooLargeResourceVersionError err
          then
            let r := with_isLastSyncResourceVersionUnavailable true r in
            match pager_list (relistResourceVersion r) pageSize w with
            | (None, w) => (Pending, r, w)
            | (Some (inr err), w) => (Returned, r, w)
            | (Some (inl list), w) =>
                (* the inner [try] ends, and the statements that follow it
                   in the [catch] block log and return *)
                (Returned, r, w)
            end
          else (Returned, r, w)
      end
  end.

(** *** run *)

(** [this.backoffManager.duration()], with the draw it makes when it
    applies jitter. *)
Definition backoff_duration (r : t) (w : Server E) : number * t * Server E :=
  let b := backoffManager r in
  let jitters :=
    negb (gt (of_nat (BackoffManager.attempt b)) (BackoffManager.threshold b))
    && JSNumber.truthy (BackoffManager.jitter b) in
  let '(u, w) := if jitters then Math_random w else (0%Q, w) in
  let '(d, b) := BackoffManager.duration u b in
  (d, with_backoffManager b r, w).

(** The loop of [run], for at most [fuel] rounds: [Pending] when the
    Reflector is still running after them. [run] declares no parameter:
    an argument that a caller passes is dropped. *)
Fixpoint run (fuel : nat) (r : t) (w : Server E) : Completion E * t * Server E :=
  match fuel with
  | O => (Pending, r, w)
  | Datatypes.S fuel =>
      if stopRequested r then (Returned, r, w)
      else
        let '(c, r, w) := listAndWatch r w in
        match c with
        | Pending => (Pending, r, w)
        | Returned | Thrown _ =>
            if stopRequested r then (Returned, r, w)
            else
              let '(d, r, w) := backoff_duration r w in
              let w := delay d w in
              run fuel r w
        end
  end.

End Reflector.
End Reflector.

Arguments Reflector.t S : clear implicits.

(** ** Informer.js *)

Module Informer.

(** The arguments of an emitted event. *)
Inductive Payload :=
| Items (items : list KObject.t)
| Object (object : KObject.t).

(** An event as its listeners get it. [emit] calls the listeners before it
    returns, so a listener that reads [informer.store] reads the store as
    it is at the call of [emit]: the emission records it as [observed]. *)
Record Emission := {
  event : string;
  args : Payload;
  observed : Store.t
}.

(** What the callbacks of the constructor close over: [store], and
    [informer] as an event emitter, with the events emitted so far. *)
Record Sink := {
  kStore : Store.t;
  emitted : list Emission
}.

Definition with_kStore (s : Store.t) (i : Sink) : Sink :=
  {| kStore := s; emitted := emitted i |}.

Definition emit (event : string) (args : Payload) (i : Sink) : Sink :=
  {| kStore := kStore i;
     emitted := emitted i ++ [{| event := event; args := args; observed := kStore i |}] |}.

Definition replace (items : list KObject.t) (i : Sink) : Sink :=
  let i := with_kStore (Store.replace items (kStore i)) i in
  emit "REPLACE" (Items items) i.

Definition add (object : KObject.t) (i : Sink) : Sink :=
  let i := with_kStore (Store.add object (kStore i)) i in
  emit "ADD" (Object object) i.

Definition update (object : KObject.t) (i : Sink) : Sink :=
  let i := with_kStore (Store.update object (kStore i)) i in
  emit "UPDATE" (Object object) i.

Definition delete (object : KObject.t) (i : Sink) : Sink :=
  let i := with_kStore (Store.delete object (kStore i)) i in
  emit "DELETE" (Object object) i.

(** The object literal that the constructor hands to [Reflector.create]. *)
#[global] Instance sink : StoreSink.t Sink :=
  {| StoreSink.replace := replace;
     StoreSink.add := add;
     StoreSink.update := update;
     StoreSink.delete := delete;
     StoreSink.setRefreshing := None |}.

Record t := {
  kReflector : Reflector.t Sink
}.

Definition create (listWatcher : ListWatcher) : t :=
  {| kReflector :=
       Reflector.create listWatcher {| kStore := Store.create; emitted := [] |} |}.

Definition store (i : t) : Store.t := kStore (Reflector.store (kReflector i)).

Definition hasSynced (i : t) : option bool := Store.hasSynced (store i).

Definition lastSyncResourceVersion (i : t) : string :=
  Reflector.lastSyncResourceVersion (kReflector i).

(** An ['abort'] listener: the arrow function [() => { ac.abort() }] of
    [run], the only one that this package adds, or a listener of the
    caller's own, which does not touch the Informer. *)
Inductive Listener := abort_ac | other.

(** An [AbortSignal]: whether it is aborted, and its listeners. *)
Record AbortSignal := {
  aborted : bool;
  listeners : list Listener
}.

(** An Informer after [run(signal)]: the controller [ac] that [run] made,
    and the signal of the caller when it gave one. *)
Record Running := {
  informer : t;
  ac : AbortSignal;
  signal : option AbortSignal
}.

(** [ac.abort()]: it marks the signal of [ac] and calls its listeners, of
    which [abort_ac] finds [ac] aborted and returns. *)
Definition ac_abort (x : Running) : Running :=
  if aborted (ac x) then x
  else {| informer := informer x;
          ac := {| aborted := true; listeners := listeners (ac x) |};
          signal := signal x |}.

Definition call (l : Listener) (x : Running) : Running :=
  match l with
  | abort_ac => ac_abort x
  | other => x
  end.

(** The caller aborts the signal it gave: the listeners are called, and a
    listener added with [once] is removed. *)
Definition signal_abort (x : Running) : Running :=
  match signal x with
  | None => x
  | Some s =>
      if aborted s then x
      else
        let x := {| informer := informer x; ac := ac x;
                    signal := Some {| aborted := true; listeners := [] |} |} in
        foldl (λ x l, call l x) x (listeners s)
  end.

(** [run(signal)]: the Informer once [run] has returned, with the handle
    [() => ac.abort()]. [this[kReflector].run(ac.signal)] starts the loop of
    the Reflector, which goes on in later turns ([Reflector.run]);
    [Reflector.run] takes no argument, so [ac.signal] gets no listener. *)
Definition run (signal : option AbortSignal) (i : t) : Running * (Running → Running) :=
  let ac := {| aborted := false; listeners := [] |} in
  let signal :=
    match signal with
    | Some s => Some {| aborted := aborted s; listeners := listeners s ++ [abort_ac] |}
    | None => None
    end in
  ({| informer := i; ac := ac; signal := signal |}, ac_abort).

End Informer.

(** ** URLSearchParams and plain objects

    The search parameters of a request are the list of their name-value
    pairs, in order. A plain object that is used as a query is the list of
    its entries in property order, its values being strings, booleans or
    integers. *)

Module URLSearchParams.

Abbreviation t := (list (string * string)).

(** [get(name)]: the value of the first pair with that name. *)
Fixpoint get (name : string) (p : t) : option string :=
  match p with
  | [] => None
  | (k, v) :: rest => if String.eqb k name then Some v else get name rest
  end.

Definition has (name : string) (p : t) : bool :=
  match get name p with
  | Some _ => true
  | None => false
  end.

(** [delete(name)]: all pairs with that name go. *)
Fixpoint delete (name : string) (p : t) : t :=
  match p with
  | [] => []
  | (k, v) :: rest =>
      if String.eqb k name then delete name rest else (k, v) :: delete name rest
  end.

(** [set(name, value)]: the first pair with that name gets the value and the
    other pairs with that name go; without such a pair, one is appended. *)
Fixpoint set (name value : string) (p : t) : t :=
  match p with
  | [] => [(name, value)]
  | (k, v) :: rest =>
      if String.eqb k name then (name, value) :: delete name rest
      else (k, v) :: set name value rest
  end.

(** [toString()] is the empty string exactly when there is no pair. *)
Definition toString_is_empty (p : t) : bool :=
  match p with
  | [] => true
  | _ :: _ => false
  end.

End URLSearchParams.

Module JSObject.

Inductive value :=
| JString (s : string)
| JBoolean (b : bool)
| JNumber (n : Z).

(** The string that a value becomes as a search parameter. *)
Definition to_string (v : value) : string :=
  match v with
  | JString s => s
  | JBoolean true => "true"
  | JBoolean false => "false"
  | JNumber n => pretty n
  end.

Abbreviation t := (list (string * value)).

(** [{ ...object, [key]: v }]: a property that is there keeps its place. *)
Fixpoint assign (key : string) (v : value) (object : t) : t :=
  match object with
  | [] => [(key, v)]
  | (k, w) :: rest =>
      if String.eqb k key then (k, v) :: rest else (k, w) :: assign key v rest
  end.

(** [new URLSearchParams(object)] *)
Definition to_searchParams (object : t) : URLSearchParams.t :=
  (λ e, (e.1, to_string e.2)) <$> object.

End JSObject.

(** ** ListWatcher.js: the [ListWatcher] class *)

Module ListWatch.

(** A value given to [setAbortSignal]: an [AbortSignal] or a value of
    another kind, each known by a number. *)
Inductive signal_value :=
| an_AbortSignal (id : nat)
| another_value (id : nat).

Definition same_value (v w : signal_value) : bool :=
  match v, w with
  | an_AbortSignal i, an_AbortSignal j => Nat.eqb i j
  | another_value i, another_value j => Nat.eqb i j
  | _, _ => false
  end.

(** What [list] and [watch] hand to the list function. *)
Record options := {
  options_searchParams : URLSearchParams.t;
  options_signal : option signal_value
}.

(** [signal] is the property that [setAbortSignal] defines, [None] until
    then. *)
Record t := {
  attributes : ListWatcher;
  searchParams : URLSearchParams.t;
  signal : option signal_value
}.

(** [new ListWatcher(listFunc, { group, version, names }, query)] *)
Definition new (attributes : ListWatcher) (query : JSObject.t) : t :=
  {| attributes := attributes;
     searchParams := JSObject.to_searchParams query;
     signal := None |}.

(** [setAbortSignal(signal)]: [Object.defineProperty] defines a property
    that is neither writable nor configurable, so defining it again with
    another value throws a [TypeError] ([None]). *)
Definition setAbortSignal (v : signal_value) (l : t) : option t :=
  match signal l with
  | None => Some {| attributes := attributes l; searchParams := searchParams l;
                    signal := Some v |}
  | Some w => if same_value v w then Some l else None
  end.

(** The loop [for (const [key, value] of Object.entries(query))]. *)
Fixpoint set_all (query : JSObject.t) (p : URLSearchParams.t) : URLSearchParams.t :=
  match query with
  | [] => p
  | (key, v) :: rest => set_all rest (URLSearchParams.set key (JSObject.to_string v) p)
  end.

(** [mergeSearchParams(query)]: on a copy of [this.searchParams]. *)
Definition mergeSearchParams (query : JSObject.t) (l : t) : URLSearchParams.t :=
  set_all query (searchParams l).

Definition list (query : JSObject.t) (l : t) : options :=
  {| options_searchParams := mergeSearchParams query l; options_signal := None |}.

Definition watch (query : JSObject.t) (l : t) : options :=
  let searchParams :=
    mergeSearchParams (JSObject.assign "watch" (JSObject.JBoolean true) query) l in
  {| options_searchParams := searchParams;
     options_signal :=
       match signal l with
       | Some (an_AbortSignal i) => Some (an_AbortSignal i)
       | _ => None
       end |}.

End ListWatch.

(** The options that the watch loop of the Reflector hands to
    [listWatcher.watch]. *)
Definition watch_options (timeoutSeconds : Z) (resourceVersion : string) : JSObject.t :=
  [("allowWatchBookmarks", JSObject.JBoolean true);
   ("timeoutSeconds", JSObject.JNumber timeoutSeconds);
   ("resourceVersion", JSObject.JString resourceVersion)].

(** ** HttpClient.js and resources: the readable verbs *)

Module Resources.

(** What a verb asks of the HTTP client: [this[http.stream]] with its
    options, or [this[http.request]], which passes the search parameters on
    only when they are not empty. *)
Inductive call :=
| http_stream (url method : string) (searchParams : URLSearchParams.t)
    (signal : option ListWatch.signal_value)
| http_request (url method : string) (searchParams : option URLSearchParams.t).

(** [this[http.request](url, { method, searchParams })] *)
Definition request (url method : string) (searchParams : URLSearchParams.t) : call :=
  http_request url method
    (if URLSearchParams.toString_is_empty searchParams then None else Some searchParams).

Definition isWatch (searchParams : URLSearchParams.t) : bool :=
  bool_decide (URLSearchParams.get "watch" searchParams = Some "true").

Definition addFieldSelector (key value : string) (searchParams : URLSearchParams.t)
    : URLSearchParams.t :=
  let fieldSelector := key ++ "=" ++ value in
  let fieldSelector :=
    match URLSearchParams.get "fieldSelector" searchParams with
    | Some old => fieldSelector ++ "," ++ old
    | None => fieldSelector
    end in
  URLSearchParams.set "fieldSelector" fieldSelector searchParams.

(** [searchParams || new URLSearchParams(options)] *)
Definition normalizeSearchParams (searchParams : option URLSearchParams.t)
    (options : JSObject.t) : URLSearchParams.t :=
  match searchParams with
  | Some p => p
  | None => JSObject.to_searchParams options
  end.

(** The argument [{ searchParams, signal, ...options }] of a verb. *)
Record arguments := {
  arg_searchParams : option URLSearchParams.t;
  arg_signal : option ListWatch.signal_value;
  arg_options : JSObject.t
}.

(** The arguments that a ListWatcher gives to its list function. *)
Definition of_listWatcher (o : ListWatch.options) : arguments :=
  {| arg_searchParams := Some (ListWatch.options_searchParams o);
     arg_signal := ListWatch.options_signal o;
     arg_options := [] |}.

(** [assertName] and [assertNamespace]: the parameter must be a string that
    is not empty; [None] is a value that is no string. *)
Definition is_name (name : option string) : bool :=
  match name with
  | Some s => negb (String.eqb s EmptyString)
  | None => false
  end.

(** [ClusterScoped.Readable.list]; [url] is [clusterScopedUrl(names)]. *)
Definition list (url : string) (a : arguments) : call :=
  let searchParams := normalizeSearchParams (arg_searchParams a) (arg_options a) in
  if isWatch searchParams
  then http_stream url "get" searchParams (arg_signal a)
  else request url "get" searchParams.

(** [ClusterScoped.Readable.get]; [url_of_name] is
    [clusterScopedUrl(names, name)] and [url] is [clusterScopedUrl(names)].
    [None] stands for the [TypeError] of [assertName]. *)
Definition get (url_of_name url : string) (name : option string) (a : arguments)
    : option call :=
  if is_name name then
    let name := default EmptyString name in
    let searchParams := normalizeSearchParams (arg_searchParams a) (arg_options a) in
    if isWatch searchParams
    then
      let searchParams := addFieldSelector "metadata.name" name searchParams in
      Some (http_stream url "get" searchParams (arg_signal a))
    else Some (request url_of_name "get" searchParams)
  else None.

End Resources.

(** ** Client.js: the lines of a response *)

Module Client.

Definition EOL : byte := Byte.x0a.

(** [data.indexOf(EOL)], [None] for -1. *)
Fixpoint indexOf (b : byte) (data : list byte) : option nat :=
  match data with
  | [] => None
  | c :: rest => if Byte.eqb c b then Some 0%nat else S <$> indexOf b rest
  end.

Section Lines.
Context {V : Type} (JSON_parse : list byte → option V).

(** What the iterator yields: the text of a line (kept as its bytes), the
    value parsed from it, the error of a line that does not parse, or the
    bytes as they are. *)
Inductive yielded :=
| text (data : list byte)
| json (v : V)
| json_error (data : list byte)
| raw (data : list byte).

Inductive response_type := type_text | type_json | type_other.

Definition transformFactory (type : response_type) (data : list byte) : yielded :=
  match type with
  | type_text => text data
  | type_json =>
      match JSON_parse data with
      | Some v => json v
      | None => json_error data
      end
  | type_other => raw data
  end.

(** The loop [while ((index = data.indexOf(EOL)) !== -1)], for at most
    [fuel] lines: what it yields and the data that is left. *)
Fixpoint drain (fuel : nat) (transform : list byte → yielded) (data : list byte)
    : list yielded * list byte :=
  match fuel with
  | O => ([], data)
  | S fuel =>
      match indexOf EOL data with
      | None => ([], data)
      | Some index =>
          let '(ys, rest) := drain fuel transform (drop (S index) data) in
          (transform (take index data) :: ys, rest)
      end
  end.

(** The loop [for await (const chunk of stream)] and the statement after it.
    A line takes at least its end-of-line byte, so the length of the data is
    fuel enough. *)
Fixpoint iterate (transform : list byte → yielded) (data : list byte)
    (stream : list (list byte)) : list yielded :=
  match stream with
  | [] => match data with [] => [] | _ :: _ => [transform data] end
  | chunk :: stream =>
      let data := (data ++ chunk)%list in
      let '(ys, data) := drain (length data) transform data in
      (ys ++ iterate transform data stream)%list
  end.

Definition asyncIterator (type : response_type) (stream : list (list byte))
    : list yielded :=
  iterate (transformFactory type) [] stream.

End Lines.

End Client.

(** ** Sample values

    The objects of the end-to-end scenarios of the specification. *)

Module Sample.

Definition object (apiVersion kind : option string) (uid resourceVersion : string)
    : KObject.t :=
  {| KObject.apiVersion := apiVersion;
     KObject.kind := kind;
     KObject.metadata :=
       Some {| ObjectMeta.uid := Some uid;
               ObjectMeta.name := None;
               ObjectMeta.resourceVersion := Some resourceVersion |};
     KObject.payload := EmptyString |}.

(** [{metadata: {uid: "a", resourceVersion: "99"}}] and the like. *)
Definition item_a : KObject.t := object None None "a" "99".
Definition item_b : KObject.t := object None None "b" "100".

(** [{apiVersion: "v1", kind: "X", metadata: {uid, resourceVersion}}] *)
Definition x (uid resourceVersion : string) : KObject.t :=
  object (Some "v1") (Some "X") uid resourceVersion.

(** The same, of kind [Y]. *)
Definition y (uid resourceVersion : string) : KObject.t :=
  object (Some "v1") (Some "Y") uid resourceVersion.

(** An object of kind [X] without [metadata.resourceVersion]. *)
Definition x_without_resourceVersion (uid : string) : KObject.t :=
  {| KObject.apiVersion := Some "v1";
     KObject.kind := Some "X";
     KObject.metadata :=
       Some {| ObjectMeta.uid := Some uid;
               ObjectMeta.name := None;
               ObjectMeta.resourceVersion := None |};
     KObject.payload := EmptyString |}.

(** A ListWatcher for [v1, Kind=X], without an agent. *)
Definition listWatcher : ListWatcher :=
  {| group := None; version := "v1"; names := Some (Some "X"); agent := None |}.

(** An error value, as the discriminators see it. *)
Record Failure := {
  message : string;
  expired : bool;
  tooLargeResourceVersion : bool;
  connectionRefused : bool
}.

Definition failure (message : string) : Failure :=
  {| message := message; expired := false; tooLargeResourceVersion := false;
     connectionRefused := false |}.

#[global] Instance failures : ApiErrors.t Failure :=
  {| ApiErrors.isExpiredError := expired;
     ApiErrors.isConnectionRefused := connectionRefused;
     ApiErrors.isTooLargeResourceVersionError := tooLargeResourceVersion;
     ApiErrors.StatusError := λ _, failure "StatusError";
     ApiErrors.Error := failure;
     ApiErrors.TypeError := failure |}.

(** The error of a list at a resource version that is no longer there. *)
Definition expired_error : Failure :=
  {| message := "Expired"; expired := true; tooLargeResourceVersion := false;
     connectionRefused := false |}.

(** A store that has all five methods and records the calls made. *)
Inductive SinkCall :=
| CallReplace (items : list KObject.t)
| CallAdd (object : KObject.t)
| CallUpdate (object : KObject.t)
| CallDelete (object : KObject.t)
| CallSetRefreshing.

Record Recorder := { recorded : list SinkCall }.

Definition record (c : SinkCall) (s : Recorder) : Recorder :=
  {| recorded := recorded s ++ [c] |}.

#[global] Instance recorder : StoreSink.t Recorder :=
  {| StoreSink.replace := λ items, record (CallReplace items);
     StoreSink.add := λ object, record (CallAdd object);
     StoreSink.update := λ object, record (CallUpdate object);
     StoreSink.delete := λ object, record (CallDelete object);
     StoreSink.setRefreshing := Some (record CallSetRefreshing) |}.

(** A server that holds the given answers and has been asked nothing. *)
Definition server {E : Type} (lists : list (ListResult + E))
    (watches : list (WatchStream E + E)) : Server E :=
  {| lists := lists; watches := watches; random := λ _, 0%Q; drawn := 0;
     requests := [] |}.

(** Scenario 2 of the specification: the first list throws *expired*, the
    second returns an empty, paginated list at resource version ["200"]. *)
Definition recovery_list : ListResult :=
  {| list_resourceVersion := "200"; list_paginated := true; items := [] |}.

Definition expired_then_recovered : Server Failure :=
  server [inr expired_error; inl recovery_list] [].

(** [new BackoffManager({ jitter: 0 })] *)
Definition no_jitter : BackoffManager.options :=
  {| BackoffManager.opt_min := JSNumber.of_Z 800;
     BackoffManager.opt_max := JSNumber.of_Z 15000;
     BackoffManager.opt_resetDuration := JSNumber.of_Z 60000;
     BackoffManager.opt_factor := JSNumber.Finite (3 # 2);
     BackoffManager.opt_jitter := JSNumber.of_Z 0 |}.


Definition literal_1e308 : JSNumber.number :=
  Eval vm_compute in JSNumber.fl (inject_Z (10 ^ 308)).



(** [new BackoffManager({ min: 0, factor: 1e308, jitter: 0 })] *)
Definition overflowing : BackoffManager.options :=
  {| BackoffManager.opt_min := JSNumber.of_Z 0;
     BackoffManager.opt_max := JSNumber.of_Z 15000;
     BackoffManager.opt_resetDuration := JSNumber.of_Z 60000;
     BackoffManager.opt_factor := literal_1e308;
     BackoffManager.opt_jitter := JSNumber.of_Z 0 |}.

(** An engine for the examples. Its power is the exact power, rounded to
    the nearest double; its logarithm is the rounded sum of the first terms
    of the series of the inverse hyperbolic tangent,
    [ln x = e ln 2 + 2 atanh ((m - 1) / (m + 1))] for [x = m 2^e]. *)
Fixpoint atanh_sum (z2 : Q) (terms : nat) (k : Z) : Q :=
  match terms with
  | O => 0
  | Datatypes.S terms =>
      Qred ((1 # Z.to_pos (2 * k + 1)) + z2 * atanh_sum z2 terms (k + 1))
  end.

Definition atanh (z : Q) : Q := Qred (z * atanh_sum (Qred (z * z)) 24 0).

Definition ln (x : Q) : Q :=
  let e := JSNumber.exponent x in
  let m := (x / 2 ^ e)%Q in
  (inject_Z e * (2 * atanh (1 # 3)) + 2 * atanh (Qred ((m - 1) / (m + 1))))%Q.

Definition engine : JSNumber.Engine.
Proof.
  refine {| JSNumber.engine_pow := λ x n, JSNumber.fl (x ^ Z.of_nat n);
            JSNumber.engine_log := λ x, JSNumber.fl (ln x) |}.
  intros x n. unfold JSNumber.fl.
  destruct (Qcompare _ _); try destruct (Qle_bool _ _); discriminate.
Defined.

(** Scenario 1: the list returns [a] and [b] at resource version ["100"];
    the watch yields [ADDED c] and [DELETED a] and closes after 10 s. *)
Definition happy_path : Server Failure :=
  server
    [inl {| list_resourceVersion := "100"; list_paginated := false;
            items := [item_a; item_b] |}]
    [inl {| events := [DataEvent "ADDED" (x "c" "101");
                       DataEvent "DELETED" (x "a" "102")];
            elapsed := 10000 |}].

(** Scenario 3: the list returns one item at resource version ["50"]; the
    watch yields a [MODIFIED] event at ["51"], then throws *expired*. *)
Definition watch_expires : Server Failure :=
  server
    [inl {| list_resourceVersion := "50"; list_paginated := false;
            items := [x "a" "50"] |}]
    [inl {| events := [DataEvent "MODIFIED" (x "a" "51"); DataError expired_error];
            elapsed := 2000 |}].

(** Scenario 4: the first watch throws *connection refused*. *)
Definition connection_refused : Server Failure :=
  server
    [inl {| list_resourceVersion := "50"; list_paginated := false; items := [] |}]
    [inr {| message := "ECONNREFUSED"; expired := false;
            tooLargeResourceVersion := false; connectionRefused := true |}].

(** A Reflector for [v1, Kind=X] on a store that records its calls. *)
Definition reflector : Reflector.t Recorder :=
  Reflector.create listWatcher {| recorded := [] |}.

End Sample.

(** ** Vocabulary of the properties *)

(** The promise of a store made by the constructor is pending or resolved
    with [true], whatever is called on the store. *)
Definition promise_ok (s : Store.t) : Prop :=
  Store.kHasSynced s = None ∨ Store.kHasSynced s = Some true.

(** What one callback of the Informer does to the sink: the store is
    [mutated], and the only event emitted has the name [event] and the
    arguments [args], and its listeners see the store [mutated]. *)
Definition mutates_then_emits (i i' : Informer.Sink) (mutated : Store.t)
    (event : string) (args : Informer.Payload) : Prop :=
  Informer.kStore i' = mutated
  ∧ ∃ e,
      Informer.emitted i' = (Informer.emitted i ++ [e])%list
      ∧ Informer.event e = event
      ∧ Informer.args e = args
      ∧ Informer.observed e = mutated.

(** The object of a watch event is of another type than the Reflector
    expects, or of the expected type. *)
Definition mismatched {S : Type} (r : Reflector.t S) (object : KObject.t) : Prop :=
  KObject.apiVersion object ≠ Some (Reflector.apiVersion r)
  ∨ KObject.kind object ≠ Reflector.kind r.

Definition matched {S : Type} (r : Reflector.t S) (object : KObject.t) : Prop :=
  KObject.apiVersion object = Some (Reflector.apiVersion r)
  ∧ KObject.kind object = Reflector.kind r.

(** Whether a call is [replace]. *)
Definition is_replace (c : Store.Call) : bool :=
  match c with
  | Store.Replace _ => true
  | _ => false
  end.


(** A change that the Reflector asks of its store. *)
Inductive Mutation :=
| MReplace (items : list KObject.t)
| MAdd (object : KObject.t)
| MUpdate (object : KObject.t)
| MDelete (object : KObject.t).

Definition mutate {S : Type} {sink : StoreSink.t S} (m : Mutation) (s : S) : S :=
  match m with
  | MReplace items => StoreSink.replace items s
  | MAdd object => StoreSink.add object s
  | MUpdate object => StoreSink.update object s
  | MDelete object => StoreSink.delete object s
  end.

(** The call of the [Store] that a change is. *)
Definition store_call (m : Mutation) : Store.Call :=
  match m with
  | MReplace items => Store.Replace items
  | MAdd object => Store.Add object
  | MUpdate object => Store.Update object
  | MDelete object => Store.Delete object
  end.

(** The name and the arguments of the event that the Informer emits for a
    change. *)
Definition signature (m : Mutation) : string * Informer.Payload :=
  match m with
  | MReplace items => ("REPLACE", Informer.Items items)
  | MAdd object => ("ADD", Informer.Object object)
  | MUpdate object => ("UPDATE", Informer.Object object)
  | MDelete object => ("DELETE", Informer.Object object)
  end.

(** A watch datum that ends the stream: an [Error] value or an [ERROR]
    event. *)
Definition throws {E : Type} (data : WatchData E) : bool :=
  match data with
  | DataError _ => true
  | DataEvent type _ => String.eqb type "ERROR"
  end.

(** The error that such a datum is thrown as. *)
Definition error_of {E : Type} {errors : ApiErrors.t E} (data : WatchData E) : option E :=
  match data with
  | DataError e => Some e
  | DataEvent type object =>
      if String.eqb type "ERROR" then Some (ApiErrors.StatusError object) else None
  end.

(** The data of a stream that come before the first one that is thrown, and
    the error thrown. *)
Fixpoint handled {E : Type} (stream : list (WatchData E)) : list (WatchData E) :=
  match stream with
  | [] => []
  | data :: rest => if throws data then [] else data :: handled rest
  end.

Fixpoint thrown {E : Type} {errors : ApiErrors.t E} (stream : list (WatchData E))
    : option E :=
  match stream with
  | [] => None
  | data :: rest => if throws data then error_of data else thrown rest
  end.

Definition matches {S : Type} (r : Reflector.t S) (object : KObject.t) : bool :=
  bool_decide (KObject.apiVersion object = Some (Reflector.apiVersion r))
  && bool_decide (KObject.kind object = Reflector.kind r).

(** The change that a watch event asks for, if any: an event of the
    expected type and of type [ADDED], [MODIFIED] or [DELETED]. *)
Definition effect {S E : Type} (r : Reflector.t S) (data : WatchData E)
    : option Mutation :=
  match data with
  | DataError _ => None
  | DataEvent type object =>
      if matches r object then
        if String.eqb type "ADDED" then Some (MAdd object)
        else if String.eqb type "MODIFIED" then Some (MUpdate object)
        else if String.eqb type "DELETED" then Some (MDelete object)
        else None
      else None
  end.

(** The resource version that a watch event brings, if any: that of an
    object of the expected type, when it is there and not empty. *)
Definition observed_version {S E : Type} (r : Reflector.t S) (data : WatchData E)
    : option string :=
  match data with
  | DataError _ => None
  | DataEvent type object =>
      if matches r object && Reflector.truthy (KObject.metadata_resourceVersion object)
      then KObject.metadata_resourceVersion object
      else None
  end.

(** The parts of a Reflector that only [listAndWatch], [stop] and [run]
    set. *)
Definition same_control {S : Type} (r r' : Reflector.t S) : Prop :=
  Reflector.listWatcher r' = Reflector.listWatcher r
  ∧ Reflector.isLastSyncResourceVersionUnavailable r'
    = Reflector.isLastSyncResourceVersionUnavailable r
  ∧ Reflector.paginatedResult r' = Reflector.paginatedResult r
  ∧ Reflector.stopRequested r' = Reflector.stopRequested r
  ∧ Reflector.backoffManager r' = Reflector.backoffManager r.

(** A request of the watch phase: a watch with bookmarks allowed and a
    timeout drawn from [minWatchTimeout], or a delay drawn from [period];
    never a list. *)
Definition watch_phase_request {E : Type} (w : Server E) (q : Request) : Prop :=
  match q with
  | ListRequest _ _ => False
  | WatchRequest allowWatchBookmarks timeoutSeconds _ =>
      allowWatchBookmarks = true
      ∧ ∃ n, timeoutSeconds
             = randomize (Reflector.draw (random w n)) Reflector.minWatchTimeout
  | Delay ms => ∃ n, ms = randomize (Reflector.draw (random w n)) Reflector.period
  end.

Definition is_list_request (q : Request) : bool :=
  match q with
  | ListRequest _ _ => true
  | _ => false
  end.

(** The value of a call of [duration], from the fields it reads. *)
Definition duration_of {engine : JSNumber.Engine} (min max factor jitter : JSNumber.number)
    (attempt : nat) (u : Q) : JSNumber.number :=
  if JSNumber.gt (JSNumber.of_nat attempt)
       (JSNumber.Math_floor
          (JSNumber.div (JSNumber.Math_log (JSNumber.div max min))
             (JSNumber.Math_log factor)))
  then max
  else
    JSNumber.Math_min
      (JSNumber.Math_floor
         (if JSNumber.truthy jitter
          then JSNumber.Math_floor
                 (JSNumber.mul
                    (JSNumber.add (JSNumber.of_Z 1)
                       (JSNumber.mul jitter
                          (JSNumber.sub (JSNumber.mul (JSNumber.of_Z 2) (JSNumber.Finite u))
                             (JSNumber.of_Z 1))))
                    (JSNumber.mul min (JSNumber.Math_pow factor attempt)))
          else JSNumber.mul min (JSNumber.Math_pow factor attempt)))
      max.

(** The fields of the manager that [new BackoffManager()] makes. *)
Definition default_fields (b : BackoffManager.t) : Prop :=
  BackoffManager.min b = JSNumber.of_Z 800
  ∧ BackoffManager.max b = JSNumber.of_Z 15000
  ∧ BackoffManager.factor b = JSNumber.Finite (3 # 2)
  ∧ BackoffManager.jitter b = BackoffManager.one_tenth.

(** The bounds of the requests of the watch phase: a watch times out after
    5 to 10 minutes, a delay lasts 1 to 2 seconds. *)
Definition within_bounds (q : Request) : Prop :=
  match q with
  | ListRequest _ _ => False
  | WatchRequest allowWatchBookmarks timeoutSeconds _ =>
      allowWatchBookmarks = true
      ∧ ∃ z : Z, timeoutSeconds = JSNumber.of_Z z ∧ (300 <= z <= 600)%Z
  | Delay ms => ∃ z : Z, ms = JSNumber.of_Z z ∧ (1000 <= z <= 2000)%Z
  end.

(** The list requests that one call of [listAndWatch] makes: none without
    [setRefreshing], one at the resource version to relist at, and a second
    one at the empty resource version after an *expired* or *too large*
    answer to the first. *)
Definition list_requests_of {S E : Type} {sink : StoreSink.t S} {errors : ApiErrors.t E}
    (r : Reflector.t S) (w : Server E) : list Request :=
  match StoreSink.setRefreshing with
  | None => []
  | Some _ =>
      let resourceVersion := Reflector.relistResourceVersion r in
      let pageSize := Reflector.pageSize r resourceVersion in
      match lists w with
      | inr err :: _ =>
          if ApiErrors.isExpiredError err || ApiErrors.isTooLargeResourceVersionError err
          then [ListRequest resourceVersion pageSize; ListRequest EmptyString pageSize]
          else [ListRequest resourceVersion pageSize]
      | _ => [ListRequest resourceVersion pageSize]
      end
  end.

(** The events that the Informer emits for a sequence of changes made to a
    store: each has the name and the arguments of its change, and its
    listeners see the store with the change made. *)
Fixpoint emissions (s : Store.t) (ms : list Mutation) : list Informer.Emission :=
  match ms with
  | [] => []
  | m :: ms =>
      let s' := Store.call (store_call m) s in
      {| Informer.event := (signature m).1;
         Informer.args := (signature m).2;
         Informer.observed := s' |} :: emissions s' ms
  end.

(** The value that a plain object gives to a name: that of the last entry
    with that name. *)
Fixpoint last_value (name : string) (query : JSObject.t) : option JSObject.value :=
  match query with
  | [] => None
  | (k, v) :: rest =>
      match last_value name rest with
      | Some w => Some w
      | None => if String.eqb k name then Some v else None
      end
  end.

(** The number of pairs with a name among search parameters. *)
Fixpoint occurrences (name : string) (p : URLSearchParams.t) : nat :=
  match p with
  | [] => 0
  | (k, _) :: rest => (if String.eqb k name then 1 else 0) + occurrences name rest
  end.

(** The lines of a buffer: the complete ones, each without its end-of-line
    byte, and the bytes after the last end-of-line byte. *)
Fixpoint lines_of (data : list byte) : list (list byte) * list byte :=
  match data with
  | [] => ([], [])
  | c :: rest =>
      if Byte.eqb c Client.EOL then ([] :: (lines_of rest).1, (lines_of rest).2)
      else
        match (lines_of rest).1 with
        | [] => ([], c :: (lines_of rest).2)
        | l :: ls => ((c :: l) :: ls, (lines_of rest).2)
        end
  end.

(** The end-of-line byte that a buffer lacks at its end, if it does. *)
Definition missing_EOL (data : list byte) : list byte :=
  match last data with
  | Some b => if Byte.eqb b Client.EOL then [] else [Client.EOL]
  | None => []
  end.

(** * Properties *)

(** ** Store *)

Section StoreFacts.
Implicit Types (s : Store.t) (o : KObject.t) (k : Key).
Implicit Types (items : list KObject.t).

Lemma set_all_kKeyPath items s :
  Store.kKeyPath (Store.set_all items s) = Store.kKeyPath s.
Proof. revert s. induction items as [|o items IH]; intros s; [done|]. by rewrite /= IH. Qed.

Lemma set_all_kHasSynced items s :
  Store.kHasSynced (Store.set_all items s) = Store.kHasSynced s.
Proof. revert s. induction items as [|o items IH]; intros s; [done|]. by rewrite /= IH. Qed.

Lemma set_all_lookup items s k :
  Store.kStore (Store.set_all items s) !! k =
  match Store.latest (Store.kKeyPath s) k items with
  | Some o => Some o
  | None => Store.kStore s !! k
  end.
Proof.
  revert s. induction items as [|o items IH]; intros s; [done|].
  rewrite /= IH /= /Store.kKeyFunc.
  destruct (Store.latest (Store.kKeyPath s) k items) as [o'|]; [done|].
  case_bool_decide as Hk.
  - by rewrite Hk lookup_insert_eq.
  - by rewrite lookup_insert_ne.
Qed.

Lemma latest_Some keyFunc k items o :
  Store.latest keyFunc k items = Some o → o ∈ items ∧ keyFunc o = k.
Proof.
  induction items as [|o' items IH]; [done|]. simpl.
  destruct (Store.latest keyFunc k items) as [o''|].
  - intros [= ->]. destruct IH as [? ?]; [done|]. split; [by right|done].
  - case_bool_decide; [|done].
    intros [= ->]. split; [by left|done].
Qed.

Lemma latest_None keyFunc k items :
  Store.latest keyFunc k items = None ↔ ∀ o, o ∈ items → keyFunc o ≠ k.
Proof.
  induction items as [|o' items IH]; simpl.
  - split; [|done]. intros _ o Ho. by apply elem_of_nil in Ho.
  - destruct (Store.latest keyFunc k items) as [o''|] eqn:Hl.
    + split; [done|]. intros H. apply latest_Some in Hl as [Hin Hk].
      exfalso. by apply (H o''); [right|].
    + case_bool_decide as Hk.
      * split; [done|]. intros H. exfalso. by apply (H o'); [left|].
      * split; [|done]. intros _ o [->|Ho]%elem_of_cons; [done|].
        by apply IH.
Qed.

Lemma replace_lookup items s k :
  Store.getByKey k (Store.replace items s) = Store.latest (Store.kKeyFunc s) k items.
Proof.
  rewrite /Store.getByKey /Store.replace /= set_all_lookup /=.
  destruct (Store.latest _ k items); [done|]. apply lookup_empty.
Qed.

Lemma replace_kKeyPath items s :
  Store.kKeyPath (Store.replace items s) = Store.kKeyPath s.
Proof. by rewrite /Store.replace /= set_all_kKeyPath. Qed.

Lemma hasByKey_true k s : Store.hasByKey k s = true ↔ is_Some (Store.getByKey k s).
Proof. rewrite /Store.hasByKey /Store.getByKey. apply bool_decide_eq_true. Qed.

Lemma hasByKey_false k s : Store.hasByKey k s = false ↔ Store.getByKey k s = None.
Proof.
  rewrite /Store.hasByKey /Store.getByKey bool_decide_eq_false.
  by rewrite eq_None_not_Some.
Qed.

Lemma call_promise_ok c s : promise_ok s → promise_ok (Store.call c s).
Proof.
  rewrite /promise_ok. destruct c; simpl; try done.
  rewrite set_all_kHasSynced /=. intros [->| ->]; by right.
Qed.

Lemma calls_promise_ok cs s : promise_ok s → promise_ok (Store.calls cs s).
Proof.
  revert s. induction cs as [|c cs IH]; intros s Hs; [done|].
  apply IH. by apply call_promise_ok.
Qed.

Lemma call_synced c s :
  Store.hasSynced s = Some true → Store.hasSynced (Store.call c s) = Some true.
Proof.
  rewrite /Store.hasSynced. destruct c; simpl; try done.
  rewrite set_all_kHasSynced /=. by intros ->.
Qed.

Lemma calls_synced cs s :
  Store.hasSynced s = Some true → Store.hasSynced (Store.calls cs s) = Some true.
Proof.
  revert s. induction cs as [|c cs IH]; intros s Hs; [done|].
  apply IH. by apply call_synced.
Qed.

Lemma replace_synced items s :
  promise_ok s → Store.hasSynced (Store.replace items s) = Some true.
Proof.
  rewrite /promise_ok /Store.hasSynced /= set_all_kHasSynced /=.
  by intros [->| ->].
Qed.

End StoreFacts.

Section StoreClaims.
Implicit Types (s : Store.t) (o : KObject.t) (k : Key).
Implicit Types (items : list KObject.t).

Lemma latest_NoDup keyFunc items o :
  NoDup (keyFunc <$> items) → o ∈ items →
  Store.latest keyFunc (keyFunc o) items = Some o.
Proof.
  induction items as [|o' items IH]; simpl.
  - intros _ Ho. by apply elem_of_nil in Ho.
  - intros [Hnotin Hnd]%NoDup_cons [->|Ho]%elem_of_cons.
    + destruct (Store.latest keyFunc (keyFunc o') items) as [o''|] eqn:Hl.
      * apply latest_Some in Hl as [Hin Hk]. exfalso. apply Hnotin.
        rewrite -Hk. by apply list_elem_of_fmap_2.
      * by rewrite bool_decide_eq_true_2.
    + by rewrite IH.
Qed.

(** C4. After [replace(items)] on any store (one made by the constructor
    and changed by any calls), the keys of the store are exactly the keys
    derived from [items]; each such key has the item it derives from (the
    last one, should several items share it; every item, when the keys of
    the items are distinct); a key that was there before and derives from
    no item is gone; and [hasSynced] is resolved with [true], which it
    stays whatever is called afterwards. *)
Theorem C4_replace_contents (map : gmap Key KObject.t) (keyPath : KObject.t → Key)
    (before : list Store.Call) items :
  let s := Store.calls before (Store.new map keyPath) in
  let s' := Store.replace items s in
  (∀ k, Store.hasByKey k s' = true ↔ ∃ o, o ∈ items ∧ Store.kKeyFunc s o = k)
  ∧ (∀ k, Store.getByKey k s' = Store.latest (Store.kKeyFunc s) k items)
  ∧ (∀ k o, Store.getByKey k s' = Some o → o ∈ items ∧ Store.kKeyFunc s o = k)
  ∧ (NoDup (Store.kKeyFunc s <$> items) → ∀ o, o ∈ items → Store.get o s' = Some o)
  ∧ (∀ k, Store.hasByKey k s = true → (∀ o, o ∈ items → Store.kKeyFunc s o ≠ k) →
       Store.hasByKey k s' = false)
  ∧ Store.hasSynced s' = Some true
  ∧ (∀ after, Store.hasSynced (Store.calls after s') = Some true).
Proof.
  intros s s'.
  assert (Hok : promise_ok s).
  { apply calls_promise_ok. by left. }
  assert (Hsync : Store.hasSynced s' = Some true) by by apply replace_synced.
  split_and!.
  - intros k. rewrite hasByKey_true replace_lookup. split.
    + intros [o Ho]. exists o. by apply latest_Some.
    + intros (o & Ho & Hk).
      destruct (Store.latest (Store.kKeyFunc s) k items) eqn:Hl; [done|].
      exfalso. by eapply latest_None.
  - intros k. apply replace_lookup.
  - intros k o. rewrite replace_lookup. apply latest_Some.
  - intros Hnd o Ho. rewrite /Store.get replace_lookup /Store.kKeyFunc.
    rewrite replace_kKeyPath. by apply latest_NoDup.
  - intros k _ Hk. rewrite hasByKey_false replace_lookup. by apply latest_None.
  - done.
  - intros after. by apply calls_synced.
Qed.

Lemma C4_replace_contents_witness :
  Store.hasByKey (Some "a")
    (Store.replace [Sample.item_b] (Store.calls [Store.Add Sample.item_a] Store.create))
  = false.
Proof.
  apply (C4_replace_contents ∅ KObject.metadata_uid [Store.Add Sample.item_a]
           [Sample.item_b]).
  - reflexivity.
  - intros o ->%list_elem_of_singleton. discriminate.
Defined.

Lemma add_delete o s :
  Store.delete o (Store.add o s) = Store.delete o s.
Proof.
  rewrite /Store.delete /Store.add /Store.with_kStore /Store.kKeyFunc /=.
  by rewrite delete_insert_eq.
Qed.

(** C8, as amended. For every store and every object whose key the store
    does not hold, [add(o)] followed by [delete(o)] leaves the store as it
    was. *)
Theorem C8_add_delete_absent s o :
  Store.has o s = false →
  Store.delete o (Store.add o s) = s
  ∧ Store.kStore (Store.delete o (Store.add o s)) = Store.kStore s.
Proof.
  rewrite /Store.has hasByKey_false /Store.getByKey. intros Hnone.
  assert (Store.delete o (Store.add o s) = s) as ->; [|done].
  rewrite add_delete /Store.delete /Store.with_kStore.
  rewrite delete_id; [done|]. by destruct s.
Qed.

Lemma C8_add_delete_absent_witness :
  Store.kStore (Store.delete Sample.item_b (Store.add Sample.item_b
                  (Store.add Sample.item_a Store.create)))
  = Store.kStore (Store.add Sample.item_a Store.create).
Proof.
  apply (C8_add_delete_absent (Store.add Sample.item_a Store.create) Sample.item_b).
  reflexivity.
Defined.

(** C8, as stated, fails on a store that holds the key of the object:
    [add(a); delete(a)] empties the store that held [a]. *)
Lemma C8_add_delete_counterexample :
  let s := Store.add Sample.item_a Store.create in
  Store.kStore (Store.delete Sample.item_a (Store.add Sample.item_a s))
  ≠ Store.kStore s.
Proof.
  intros s H.
  apply (f_equal (λ m : gmap Key KObject.t, m !! Some "a")) in H.
  vm_compute in H. discriminate.
Qed.

End StoreClaims.

(** ** Informer: the callbacks of the constructor *)

Section InformerClaims.
Implicit Types (i : Informer.Sink) (o : KObject.t) (items : list KObject.t).

Lemma latest_is_Some keyFunc items o :
  o ∈ items → is_Some (Store.latest keyFunc (keyFunc o) items).
Proof.
  intros Ho. destruct (Store.latest keyFunc (keyFunc o) items) eqn:H; [done|].
  exfalso. by apply (proj1 (latest_None keyFunc (keyFunc o) items) H o).
Qed.

(** C10. Each of the four callbacks that the Informer gives to its
    Reflector changes the Store first and emits the event next: the store
    after the callback is the store that the [Store] method leaves, the
    callback emits exactly one event, named for the method and carrying the
    argument of the method, and a listener of that event sees the store
    with the change made. So the listener of [ADD] or [UPDATE] finds the
    object in the store, the listener of [DELETE] does not find it, and the
    listener of [REPLACE] finds the items, each key with the last item that
    has it, and nothing else. *)
Theorem C10_store_mutated_before_emit i :
  (∀ items,
     mutates_then_emits i (StoreSink.replace items i)
       (Store.replace items (Informer.kStore i)) "REPLACE" (Informer.Items items))
  ∧ (∀ o,
       mutates_then_emits i (StoreSink.add o i)
         (Store.add o (Informer.kStore i)) "ADD" (Informer.Object o))
  ∧ (∀ o,
       mutates_then_emits i (StoreSink.update o i)
         (Store.update o (Informer.kStore i)) "UPDATE" (Informer.Object o))
  ∧ (∀ o,
       mutates_then_emits i (StoreSink.delete o i)
         (Store.delete o (Informer.kStore i)) "DELETE" (Informer.Object o))
  ∧ (∀ items, ∃ e,
       Informer.emitted (StoreSink.replace items i) = (Informer.emitted i ++ [e])%list
       ∧ Informer.event e = "REPLACE"
       ∧ (∀ k, Store.getByKey k (Informer.observed e)
               = Store.latest (Store.kKeyFunc (Informer.kStore i)) k items)
       ∧ (∀ o, o ∈ items → Store.has o (Informer.observed e) = true))
  ∧ (∀ o, ∃ e,
       Informer.emitted (StoreSink.add o i) = (Informer.emitted i ++ [e])%list
       ∧ Informer.event e = "ADD"
       ∧ Store.get o (Informer.observed e) = Some o
       ∧ Store.has o (Informer.observed e) = true)
  ∧ (∀ o, ∃ e,
       Informer.emitted (StoreSink.update o i) = (Informer.emitted i ++ [e])%list
       ∧ Informer.event e = "UPDATE"
       ∧ Store.get o (Informer.observed e) = Some o
       ∧ Store.has o (Informer.observed e) = true)
  ∧ (∀ o, ∃ e,
       Informer.emitted (StoreSink.delete o i) = (Informer.emitted i ++ [e])%list
       ∧ Informer.event e = "DELETE"
       ∧ Store.get o (Informer.observed e) = None
       ∧ Store.has o (Informer.observed e) = false).
Proof.
  rewrite /mutates_then_emits.
  split_and!.
  - intros x. split; [reflexivity|]. eexists. by split.
  - intros x. split; [reflexivity|]. eexists. by split.
  - intros x. split; [reflexivity|]. eexists. by split.
  - intros x. split; [reflexivity|]. eexists. by split.
  - intros items. eexists. split; [reflexivity|]. split; [done|].
    cbn [Informer.observed Informer.kStore Informer.with_kStore]. split.
    + intros k. apply replace_lookup.
    + intros o Ho. rewrite /Store.has hasByKey_true replace_lookup.
      rewrite /Store.kKeyFunc replace_kKeyPath. by apply latest_is_Some.
  - intros o. eexists. split; [reflexivity|]. split; [done|].
    cbn [Informer.observed Informer.kStore Informer.with_kStore]. split.
    + by rewrite /Store.get /Store.getByKey /Store.kKeyFunc /= lookup_insert_eq.
    + rewrite /Store.has hasByKey_true /Store.getByKey /Store.kKeyFunc /=.
      by rewrite lookup_insert_eq.
  - intros o. eexists. split; [reflexivity|]. split; [done|].
    cbn [Informer.observed Informer.kStore Informer.with_kStore]. split.
    + by rewrite /Store.get /Store.getByKey /Store.kKeyFunc /= lookup_insert_eq.
    + rewrite /Store.has hasByKey_true /Store.getByKey /Store.kKeyFunc /=.
      by rewrite lookup_insert_eq.
  - intros o. eexists. split; [reflexivity|]. split; [done|].
    cbn [Informer.observed Informer.kStore Informer.with_kStore]. split.
    + by rewrite /Store.get /Store.getByKey /Store.kKeyFunc /= lookup_delete_eq.
    + rewrite /Store.has hasByKey_false /Store.getByKey /Store.kKeyFunc /=.
      by rewrite lookup_delete_eq.
Qed.

End InformerClaims.

(** ** Reflector *)

Section ReflectorClaims.
Context {S E : Type} {sink : StoreSink.t S} {errors : ApiErrors.t E}.
Implicit Types (r : Reflector.t S) (w : Server E) (object : KObject.t).

(** C3. The resource version of the next list is the empty string when the last synced
    resource version is marked unavailable, else ["0"] when the last synced
    resource version is the empty string, else the last synced resource
    version. *)
Theorem C3_relistResourceVersion r :
  (Reflector.isLastSyncResourceVersionUnavailable r = true →
     Reflector.relistResourceVersion r = EmptyString)
  ∧ (Reflector.isLastSyncResourceVersionUnavailable r = false →
       Reflector.lastSyncResourceVersion r = EmptyString →
       Reflector.relistResourceVersion r = "0")
  ∧ (Reflector.isLastSyncResourceVersionUnavailable r = false →
       Reflector.lastSyncResourceVersion r ≠ EmptyString →
       Reflector.relistResourceVersion r = Reflector.lastSyncResourceVersion r).
Proof.
  rewrite /Reflector.relistResourceVersion. repeat split.
  - by intros ->.
  - by intros -> ->.
  - intros -> Hne. by apply String.eqb_neq in Hne as ->.
Qed.

Lemma mismatched_test r object :
  mismatched r object →
  negb (bool_decide (KObject.apiVersion object = Some (Reflector.apiVersion r)))
  || negb (bool_decide (KObject.kind object = Reflector.kind r)) = true.
Proof.
  intros [H|H]; apply orb_true_iff; [left|right];
    by rewrite bool_decide_eq_false_2.
Qed.

Lemma matched_test r object :
  matched r object →
  negb (bool_decide (KObject.apiVersion object = Some (Reflector.apiVersion r)))
  || negb (bool_decide (KObject.kind object = Reflector.kind r)) = false.
Proof. intros [H1 H2]. by rewrite !bool_decide_eq_true_2. Qed.

Lemma handle_mismatched type object r :
  mismatched r object →
  Reflector.handle (DataEvent type object) r =
  (if String.eqb type "ERROR" then Some (ApiErrors.StatusError object) else None, r).
Proof.
  intros Hm. rewrite /Reflector.handle. destruct (String.eqb type "ERROR"); [done|].
  by rewrite mismatched_test.
Qed.

Lemma handle_listWatcher data r :
  Reflector.listWatcher (Reflector.handle data r).2 = Reflector.listWatcher r.
Proof.
  destruct data as [e|type object]; [done|]. rewrite /Reflector.handle.
  repeat (case_match; simpl; try done).
Qed.

Lemma handle_all_listWatcher stream r :
  Reflector.listWatcher (Reflector.handle_all stream r).2 = Reflector.listWatcher r.
Proof.
  revert r. induction stream as [|data stream IH]; intros r; [done|]. simpl.
  pose proof (handle_listWatcher data r) as Hl.
  destruct (Reflector.handle data r) as [[e|] r']; simpl in *; [done|].
  by rewrite IH.
Qed.

Lemma handle_all_app pre post r :
  Reflector.handle_all (pre ++ post) r =
  match Reflector.handle_all pre r with
  | (Some e, r') => (Some e, r')
  | (None, r') => Reflector.handle_all post r'
  end.
Proof.
  revert r. induction pre as [|data pre IH]; intros r; [done|]. simpl.
  destruct (Reflector.handle data r) as [[e|] r']; [done|]. apply IH.
Qed.

(** C9. A watch event of the expected type whose object has no
    [metadata.resourceVersion] still changes the store ([add] for [ADDED],
    [update] for [MODIFIED], [delete] for [DELETED]); the rest of the
    Reflector, [lastSyncResourceVersion] with it, stays as it was, and the
    loop goes on with the next event. *)
Theorem C9_event_without_resourceVersion r object :
  matched r object →
  KObject.metadata_resourceVersion object = None →
  Reflector.handle (DataEvent "ADDED" object) r
    = (None, Reflector.with_store (StoreSink.add object (Reflector.store r)) r)
  ∧ Reflector.handle (DataEvent "MODIFIED" object) r
    = (None, Reflector.with_store (StoreSink.update object (Reflector.store r)) r)
  ∧ Reflector.handle (DataEvent "DELETED" object) r
    = (None, Reflector.with_store (StoreSink.delete object (Reflector.store r)) r)
  ∧ ∀ type, type = "ADDED" ∨ type = "MODIFIED" ∨ type = "DELETED" →
      Reflector.lastSyncResourceVersion (Reflector.handle (DataEvent type object) r).2
      = Reflector.lastSyncResourceVersion r.
Proof.
  intros Hm Hrv.
  assert (Hadd : Reflector.handle (DataEvent "ADDED" object) r
    = (None, Reflector.with_store (StoreSink.add object (Reflector.store r)) r)).
  { by rewrite /Reflector.handle /= matched_test // Hrv. }
  assert (Hupd : Reflector.handle (DataEvent "MODIFIED" object) r
    = (None, Reflector.with_store (StoreSink.update object (Reflector.store r)) r)).
  { by rewrite /Reflector.handle /= matched_test // Hrv. }
  assert (Hdel : Reflector.handle (DataEvent "DELETED" object) r
    = (None, Reflector.with_store (StoreSink.delete object (Reflector.store r)) r)).
  { by rewrite /Reflector.handle /= matched_test // Hrv. }
  repeat split; try done.
  intros type [->|[->| ->]]; by rewrite ?Hadd ?Hupd ?Hdel.
Qed.

End ReflectorClaims.

Section ListAndWatchClaims.
Context {S E : Type} {sink : StoreSink.t S} {errors : ApiErrors.t E}.
Implicit Types (r : Reflector.t S) (w : Server E).

(** C1 (what the code does where the claim fails). When the first list
    throws an *expired* or *too-large-resource-version* error and the retry
    succeeds, [listAndWatch] does not go on as after a list that succeeded:
    it returns, with [isLastSyncResourceVersionUnavailable] still set, the
    store untouched since [setRefreshing] ([replace] is not called), and
    [lastSyncResourceVersion] as it was. The two list requests are made,
    the second at the empty resource version; no watch is opened. *)
Theorem C1_recovered_list_is_dropped r w setRefreshing err list rest :
  StoreSink.setRefreshing = Some setRefreshing →
  lists w = inr err :: inl list :: rest →
  ApiErrors.isExpiredError err || ApiErrors.isTooLargeResourceVersionError err = true →
  ∃ r' w',
    Reflector.listAndWatch r w = (Returned, r', w')
    ∧ Reflector.isLastSyncResourceVersionUnavailable r' = true
    ∧ Reflector.store r' = setRefreshing (Reflector.store r)
    ∧ Reflector.lastSyncResourceVersion r' = Reflector.lastSyncResourceVersion r
    ∧ Reflector.paginatedResult r' = Reflector.paginatedResult r
    ∧ requests w' =
        (requests w ++
           [ListRequest (Reflector.relistResourceVersion r)
              (Reflector.pageSize r (Reflector.relistResourceVersion r));
            ListRequest EmptyString
              (Reflector.pageSize r (Reflector.relistResourceVersion r))])%list
    ∧ lists w' = rest
    ∧ watches w' = watches w.
Proof.
  intros Hset Hlists Herr.
  rewrite /Reflector.listAndWatch Hset /Reflector.pager_list /= Hlists /= Herr /=.
  do 2 eexists. split; [reflexivity|]. simpl.
  repeat split. by rewrite -app_assoc.
Qed.

End ListAndWatchClaims.

Lemma C1_recovered_list_is_dropped_witness :
  ∃ r' w',
    Reflector.listAndWatch
      (Reflector.create Sample.listWatcher {| Sample.recorded := [] |})
      Sample.expired_then_recovered = (Returned, r', w')
    ∧ Reflector.isLastSyncResourceVersionUnavailable r' = true
    ∧ Sample.recorded (Reflector.store r') = [Sample.CallSetRefreshing]
    ∧ Reflector.lastSyncResourceVersion r' = EmptyString
    ∧ requests w' = [ListRequest "0" None; ListRequest EmptyString None].
Proof.
  destruct (C1_recovered_list_is_dropped
              (Reflector.create Sample.listWatcher {| Sample.recorded := [] |})
              Sample.expired_then_recovered
              (Sample.record Sample.CallSetRefreshing)
              Sample.expired_error Sample.recovery_list [])
    as (r' & w' & Heq & Hflag & Hstore & Hrv & _ & Hreq & _ & _);
    [reflexivity..|].
  exists r', w'. by rewrite Hstore Hreq.
Defined.

Section CancellationClaims.
Context {E : Type} {errors : ApiErrors.t E} {engine : JSNumber.Engine}.
Implicit Types (r : Reflector.t Informer.Sink) (w : Server E).

Lemma listAndWatch_informer r w :
  Reflector.listAndWatch r w =
  (Thrown (ApiErrors.TypeError "this.store.setRefreshing is not a function"), r, w).
Proof. done. Qed.

Lemma backoff_duration_stopRequested r w :
  Reflector.stopRequested (Reflector.backoff_duration r w).1.2
  = Reflector.stopRequested r.
Proof.
  rewrite /Reflector.backoff_duration.
  destruct (_ && _); simpl; by destruct (BackoffManager.duration _ _).
Qed.

Lemma run_informer_pending fuel r w :
  Reflector.stopRequested r = false →
  (Reflector.run fuel r w).1.1 = Pending.
Proof.
  revert r w. induction fuel as [|fuel IH]; intros r w Hstop; [done|].
  cbn [Reflector.run]. rewrite Hstop listAndWatch_informer Hstop.
  pose proof (backoff_duration_stopRequested r w) as Hb.
  destruct (Reflector.backoff_duration r w) as [[d r'] w']. simpl in Hb.
  apply IH. by rewrite Hb.
Qed.

Lemma run_stopped fuel r w :
  Reflector.stopRequested r = true →
  Reflector.run (Datatypes.S fuel) r w = (Returned, r, w).
Proof. intros Hstop. by rewrite /= Hstop. Qed.

(** C2 (what the code does where the claim fails). The handle that
    [Informer.run(signal)] returns aborts the controller that [run] made,
    and so does the signal of the caller; neither reaches the Reflector,
    whose [run] takes no signal and whose [stop] nobody calls. After the
    handle is invoked (or the signal fires) the Reflector is as it was,
    [stopRequested] is false, and its loop is still running after any
    number of rounds; after [stop()] the loop returns at once. *)
Theorem C2_cancel_does_not_stop_reflector (listWatcher : ListWatcher)
    (signal : option Informer.AbortSignal) (fuel : nat) w :
  let i := Informer.create listWatcher in
  let x := (Informer.run signal i).1 in
  let cancel := (Informer.run signal i).2 in
  Informer.aborted (Informer.ac (cancel x)) = true
  ∧ Informer.kReflector (Informer.informer (cancel x)) = Informer.kReflector i
  ∧ Informer.kReflector (Informer.informer (Informer.signal_abort x))
    = Informer.kReflector i
  ∧ Reflector.stopRequested (Informer.kReflector (Informer.informer (cancel x))) = false
  ∧ (Reflector.run fuel (Informer.kReflector (Informer.informer (cancel x))) w).1.1
    = Pending
  ∧ Reflector.stopRequested (Reflector.stop (Informer.kReflector i)) = true
  ∧ Reflector.run (Datatypes.S fuel) (Reflector.stop (Informer.kReflector i)) w
    = (Returned, Reflector.stop (Informer.kReflector i), w).
Proof.
  intros i x cancel.
  assert (Hsig : Informer.informer (Informer.signal_abort x) = i).
  { rewrite /Informer.signal_abort /x /=. destruct signal as [s|]; [|done]. simpl.
    destruct (Informer.aborted s); [done|].
    rewrite foldl_app /=.
    set (x0 := {| Informer.informer := i |}).
    assert (Hx0 : Informer.informer x0 = i) by done.
    clearbody x0. revert x0 Hx0.
    induction (Informer.listeners s) as [|l ls IH]; intros x0 Hx0; simpl.
    - rewrite /Informer.ac_abort. by destruct (Informer.aborted _).
    - apply IH. destruct l; simpl; [|done].
      rewrite /Informer.ac_abort. by destruct (Informer.aborted _). }
  assert (Hstopped :
    Reflector.stopRequested (Reflector.stop (Informer.kReflector i)) = true).
  { by destruct listWatcher as [? ? ? []]. }
  split_and!.
  - done.
  - done.
  - by rewrite Hsig.
  - done.
  - by apply run_informer_pending.
  - done.
  - by apply run_stopped.
Qed.

End CancellationClaims.

Section MismatchedEventClaims.
Context {E : Type} {errors : ApiErrors.t E}.
Implicit Types (r : Reflector.t Informer.Sink) (object : KObject.t).

Lemma mismatched_listWatcher {S : Type} (r r' : Reflector.t S) object :
  Reflector.listWatcher r' = Reflector.listWatcher r →
  mismatched r object → mismatched r' object.
Proof.
  rewrite /mismatched /Reflector.apiVersion /Reflector.kind. by intros ->.
Qed.

(** C6. A watch event whose object is not of the type that the Reflector
    expects is skipped: the Reflector of an Informer is after it as it was
    before, so the content of the Store is unchanged,
    [lastSyncResourceVersion] is unchanged whatever resource version the
    object carries, and no event is emitted to the subscribers. Unless the
    event is of type [ERROR] (which is thrown whatever its object), the
    loop goes on with the next event, and the stream is handled as if the
    event were not in it. *)
Theorem C6_mismatched_event_skipped r (type : string) object :
  mismatched r object →
  let r' := (Reflector.handle (E:=E) (DataEvent type object) r).2 in
  Informer.kStore (Reflector.store r') = Informer.kStore (Reflector.store r)
  ∧ Reflector.lastSyncResourceVersion r' = Reflector.lastSyncResourceVersion r
  ∧ Informer.emitted (Reflector.store r') = Informer.emitted (Reflector.store r)
  ∧ r' = r
  ∧ (type ≠ "ERROR" →
       (Reflector.handle (E:=E) (DataEvent type object) r).1 = None
       ∧ ∀ pre post : list (WatchData E),
           Reflector.handle_all (pre ++ DataEvent type object :: post) r
           = Reflector.handle_all (pre ++ post) r).
Proof.
  intros Hm r'.
  assert (Hr' : r' = r) by by rewrite /r' handle_mismatched.
  rewrite Hr'. split_and!; try done.
  intros Htype%String.eqb_neq. split.
  - by rewrite handle_mismatched // Htype.
  - intros pre post. rewrite !handle_all_app.
    pose proof (handle_all_listWatcher pre r) as Hl.
    destruct (Reflector.handle_all pre r) as [[e|] r1]; [done|]. simpl in Hl.
    cbn [Reflector.handle_all].
    rewrite handle_mismatched; [by eapply mismatched_listWatcher|].
    by rewrite Htype.
Qed.

End MismatchedEventClaims.

(** Scenario 6 of the specification: a Reflector for [v1, Kind=X] gets an
    event whose object is of kind [Y]. *)
Lemma C6_mismatched_event_skipped_witness :
  let r := Informer.kReflector (Informer.create Sample.listWatcher) in
  let r' := (Reflector.handle (E:=Sample.Failure)
               (DataEvent "ADDED" (Sample.y "c" "101")) r).2 in
  Informer.kStore (Reflector.store r') = Informer.kStore (Reflector.store r)
  ∧ Reflector.lastSyncResourceVersion r' = EmptyString
  ∧ Informer.emitted (Reflector.store r') = [].
Proof.
  intros r r'.
  destruct (C6_mismatched_event_skipped (E:=Sample.Failure) r "ADDED" (Sample.y "c" "101"))
    as (Hstore & Hrv & Hemitted & _).
  - right. discriminate.
  - by rewrite Hstore Hrv Hemitted.
Defined.

Lemma C9_event_without_resourceVersion_witness :
  let r := Informer.kReflector (Informer.create Sample.listWatcher) in
  let r' := (Reflector.handle (E:=Sample.Failure)
               (DataEvent "ADDED" (Sample.x_without_resourceVersion "c")) r).2 in
  Store.has (Sample.x_without_resourceVersion "c") (Informer.kStore (Reflector.store r'))
  = true
  ∧ Reflector.lastSyncResourceVersion r' = EmptyString.
Proof.
  intros r r'.
  destruct (C9_event_without_resourceVersion (E:=Sample.Failure) r
              (Sample.x_without_resourceVersion "c"))
    as (Hadd & _); [done|done|].
  by rewrite /r' Hadd.
Defined.

Lemma C3_relistResourceVersion_witness :
  Reflector.relistResourceVersion
    (Reflector.create Sample.listWatcher {| Sample.recorded := [] |}) = "0".
Proof.
  apply (C3_relistResourceVersion
           (Reflector.create Sample.listWatcher {| Sample.recorded := [] |}));
    reflexivity.
Defined.

(** ** Numbers, randomize and BackoffManager *)

Section RoundingFacts.
Import JSNumber.
Local Open Scope Q_scope.

Lemma Qlt_bool_true x y : Qlt_bool x y = true ↔ x < y.
Proof.
  rewrite /Qlt_bool negb_true_iff. split.
  - intros H. apply Qnot_le_lt. intros Hle. apply Qle_bool_iff in Hle. congruence.
  - intros H. destruct (Qle_bool y x) eqn:Hle; [|done].
    apply Qle_bool_iff in Hle. exfalso. by apply (Qlt_not_le x y).
Qed.

Lemma Qlt_bool_false x y : Qlt_bool x y = false ↔ y <= x.
Proof. rewrite /Qlt_bool negb_false_iff. apply Qle_bool_iff. Qed.

Lemma Qeq_bool_false x y : Qeq_bool x y = false ↔ ¬ x == y.
Proof.
  split.
  - intros H Heq. apply Qeq_bool_iff in Heq. congruence.
  - intros H. destruct (Qeq_bool x y) eqn:Heq; [|done].
    by apply Qeq_bool_iff in Heq.
Qed.

Lemma Qle_bool_false x y : Qle_bool x y = false ↔ y < x.
Proof.
  split.
  - intros H. apply Qnot_le_lt. intros Hle. apply Qle_bool_iff in Hle. congruence.
  - intros H. destruct (Qle_bool x y) eqn:Hle; [|done].
    apply Qle_bool_iff in Hle. exfalso. by apply (Qlt_not_le y x).
Qed.

Lemma pow2_pos (e : Z) : 0 < 2 ^ e.
Proof. by apply Qpower_0_lt. Qed.

Lemma pow2_plus (a b : Z) : 2 ^ (a + b) == 2 ^ a * 2 ^ b.
Proof. by apply Qpower_plus. Qed.

Lemma pow2_minus (a b : Z) : 2 ^ (a - b) == 2 ^ a / 2 ^ b.
Proof. by apply Qpower_minus. Qed.

Lemma pow2_le (a b : Z) : (a <= b)%Z → 2 ^ a <= 2 ^ b.
Proof. intros. by apply Qpower_le_compat_l. Qed.

Lemma pow2_lt (a b : Z) : (a < b)%Z → 2 ^ a < 2 ^ b.
Proof. intros. by apply Qpower_lt_compat_l. Qed.

Lemma pow2_lt_inv (a b : Z) : 2 ^ a < 2 ^ b → (a < b)%Z.
Proof. intros. by apply (Qpower_lt_compat_l_inv 2). Qed.

Lemma pow2_Z (n : Z) : (0 <= n)%Z → 2 ^ n == inject_Z (2 ^ n).
Proof. intros. by rewrite Zpower_Qpower. Qed.

Lemma Qdiv_lt_cross (p q a b : Q) : 0 < q → 0 < b → p * b < a * q → p / q < a / b.
Proof.
  intros Hq Hb H. apply Qlt_shift_div_r; [done|].
  assert (a / b * q == a * q / b) as -> by (field; lra).
  by apply Qlt_shift_div_l.
Qed.

Lemma Qdiv_le_cross (p q a b : Q) : 0 < q → 0 < b → p * b <= a * q → p / q <= a / b.
Proof.
  intros Hq Hb H. apply Qle_shift_div_r; [done|].
  assert (a / b * q == a * q / b) as -> by (field; lra).
  by apply Qle_shift_div_l.
Qed.

(** The exponent of a positive number: [2^e <= x < 2^(e+1)]. *)
Lemma exponent_spec (x : Q) :
  0 < x → 2 ^ exponent x <= x ∧ x < 2 ^ (exponent x + 1).
Proof.
  intros Hx. rewrite /exponent.
  destruct x as [p q]. simpl Qnum. simpl Qden.
  assert (Hp : (0 < p)%Z).
  { rewrite /Qlt /= in Hx. lia. }
  set (a := Z.log2 p). set (b := Z.log2 (Z.pos q)).
  destruct (Z.log2_spec p Hp) as [Hp1 Hp2].
  destruct (Z.log2_spec (Z.pos q) eq_refl) as [Hq1 Hq2].
  fold a in Hp1, Hp2. fold b in Hq1, Hq2.
  assert (Ha : (0 <= a)%Z) by apply Z.log2_nonneg.
  assert (Hb : (0 <= b)%Z) by apply Z.log2_nonneg.
  assert (Hx' : p # q == inject_Z p / inject_Z (Z.pos q)) by apply Qmake_Qdiv.
  assert (Hqpos : 0 < inject_Z (Z.pos q)) by (rewrite /Qlt /=; lia).
  rewrite Zle_Qle in Hp1. rewrite Zle_Qle in Hq1.
  rewrite Zlt_Qlt in Hp2. rewrite Zlt_Qlt in Hq2.
  rewrite -!pow2_Z in Hp1 Hp2 Hq1 Hq2; try lia.
  rewrite /Z.succ !pow2_plus in Hp2 Hq2.
  change (2 ^ 1) with 2 in Hp2, Hq2.
  pose proof (pow2_pos a) as Hpa. pose proof (pow2_pos b) as Hpb.
  destruct (Qle_bool (2 ^ (a - b)) (p # q)) eqn:Hle.
  - apply Qle_bool_iff in Hle. split; [done|].
    rewrite pow2_plus pow2_minus Hx'. change (2 ^ 1) with 2.
    assert (2 ^ a / 2 ^ b * 2 == (2 ^ a * 2) / 2 ^ b) as -> by (field; lra).
    apply Qdiv_lt_cross; [done|done|]. nra.
  - assert (Hlt : p # q < 2 ^ (a - b)).
    { apply Qnot_le_lt. intros H. apply Qle_bool_iff in H. congruence. }
    split.
    + replace (a - b - 1)%Z with (a - (b + 1))%Z by lia.
      rewrite pow2_minus pow2_plus Hx'. change (2 ^ 1) with 2.
      apply Qdiv_le_cross; [lra|done|]. nra.
    + by replace (a - b - 1 + 1)%Z with (a - b)%Z by lia.
Qed.


Lemma exponent_mono (x y : Q) : 0 < x → x <= y → (exponent x <= exponent y)%Z.
Proof.
  intros Hx Hxy.
  destruct (exponent_spec x Hx) as [Hlo _].
  destruct (exponent_spec y ltac:(lra)) as [_ Hhi].
  assert (2 ^ exponent x < 2 ^ (exponent y + 1)) as H%pow2_lt_inv by lra.
  lia.
Qed.


Lemma nearest_even_comp (x y : Q) : x == y → nearest_even x = nearest_even y.
Proof.
  intros H. rewrite /nearest_even (Qfloor_comp _ _ H).
  by rewrite (Qcompare_comp _ _ (Qplus_comp _ _ H _ _ (Qeq_refl _)) _ _ (Qeq_refl _)).
Qed.

Lemma nearest_even_Z (n : Z) : nearest_even (inject_Z n) = n.
Proof.
  rewrite /nearest_even Qfloor_Z.
  assert (inject_Z n - inject_Z n < 1 # 2) as ->%Qlt_alt by lra. done.
Qed.

Lemma nearest_even_cases (x : Q) :
  let n := Qfloor x in
  (nearest_even x = n ∧ x - inject_Z n <= 1 # 2)
  ∨ (nearest_even x = (n + 1)%Z ∧ 1 # 2 <= x - inject_Z n).
Proof.
  intros n. rewrite /nearest_even -/n.
  destruct (Qcompare_spec (x - inject_Z n) (1 # 2)) as [H|H|H].
  - destruct (Z.even n); [left|right]; split; try done; lra.
  - left. split; [done|lra].
  - right. split; [done|lra].
Qed.

Lemma nearest_even_mono (x y : Q) : x <= y → (nearest_even x <= nearest_even y)%Z.
Proof.
  intros Hxy. pose proof (Qfloor_resp_le _ _ Hxy) as Hf.
  destruct (Z.eq_dec (Qfloor x) (Qfloor y)) as [Heq|Hne].
  - rewrite /nearest_even -Heq.
    destruct (Qcompare_spec (x - inject_Z (Qfloor x)) (1 # 2)) as [H|H|H];
      destruct (Qcompare_spec (y - inject_Z (Qfloor x)) (1 # 2)) as [H'|H'|H'];
      try destruct (Z.even (Qfloor x)); try lia; lra.
  - destruct (nearest_even_cases x) as [[-> _]|[-> _]];
      destruct (nearest_even_cases y) as [[-> _]|[-> _]]; lia.
Qed.

Lemma nearest_even_ge (x : Q) (n : Z) : inject_Z n <= x → (n <= nearest_even x)%Z.
Proof. intros H%nearest_even_mono. by rewrite nearest_even_Z in H. Qed.

Lemma nearest_even_le (x : Q) (n : Z) : x <= inject_Z n → (nearest_even x <= n)%Z.
Proof. intros H%nearest_even_mono. by rewrite nearest_even_Z in H. Qed.



(** A number that is a multiple of its quantum is its own rounding. *)
Lemma round_pos_exact (x : Q) (k : Z) :
  x / 2 ^ quantum x == inject_Z k → round_pos x == x.
Proof.
  intros H. rewrite /round_pos (nearest_even_comp _ _ H) nearest_even_Z -H.
  pose proof (pow2_pos (quantum x)). field. lra.
Qed.

(** The rounding of a positive number stays within the powers of two
    around it. *)
Lemma round_pos_lower (x : Q) :
  0 < x → (-1074 <= exponent x - 52)%Z → 2 ^ exponent x <= round_pos x.
Proof.
  intros Hx Hn. destruct (exponent_spec x Hx) as [Hlo _].
  rewrite /round_pos. set (s := quantum x).
  assert (Hs : s = (exponent x - 52)%Z) by (rewrite /s /quantum; lia).
  assert (H52 : (2 ^ 52 <= nearest_even (x / 2 ^ s))%Z).
  { apply nearest_even_ge. rewrite -pow2_Z; [done|].
    apply Qle_shift_div_l; [apply pow2_pos|].
    rewrite -pow2_plus. by replace (52 + s)%Z with (exponent x) by lia. }
  rewrite Zle_Qle in H52. rewrite -pow2_Z in H52; [done|].
  replace (exponent x) with (52 + s)%Z by lia. rewrite pow2_plus.
  pose proof (pow2_pos s). nra.
Qed.

Lemma round_pos_upper (x : Q) (c : Z) :
  0 < x → x <= 2 ^ c → (quantum x <= c)%Z → round_pos x <= 2 ^ c.
Proof.
  intros Hx Hc Hq. rewrite /round_pos. set (s := quantum x) in *.
  assert (H : (nearest_even (x / 2 ^ s) <= 2 ^ (c - s))%Z).
  { apply nearest_even_le. rewrite -pow2_Z; [lia|].
    apply Qle_shift_div_r; [apply pow2_pos|].
    rewrite -pow2_plus. by replace (c - s + s)%Z with c by lia. }
  rewrite Zle_Qle in H. rewrite -pow2_Z in H; [lia|].
  assert (Hc2 : 2 ^ c == 2 ^ (c - s) * 2 ^ s).
  { rewrite -pow2_plus. by replace (c - s + s)%Z with c by lia. }
  rewrite Hc2. pose proof (pow2_pos s). nra.
Qed.

Lemma round_pos_nonneg (x : Q) : 0 < x → 0 <= round_pos x.
Proof.
  intros Hx. rewrite /round_pos.
  assert (H : (0 <= nearest_even (x / 2 ^ quantum x))%Z).
  { apply nearest_even_ge. apply Qle_shift_div_l; [apply pow2_pos|].
    change (inject_Z 0) with 0. lra. }
  rewrite Zle_Qle in H. change (inject_Z 0) with 0 in H.
  pose proof (pow2_pos (quantum x)). nra.
Qed.

Lemma round_pos_mono (x y : Q) : 0 < x → x <= y → round_pos x <= round_pos y.
Proof.
  intros Hx Hxy.
  assert (Hy : 0 < y) by lra.
  pose proof (exponent_mono x y Hx Hxy) as He.
  destruct (exponent_spec x Hx) as [Hxlo Hxhi].
  destruct (Z.eq_dec (quantum x) (quantum y)) as [Heq|Hne].
  - rewrite /round_pos -Heq.
    assert (H : (nearest_even (x / 2 ^ quantum x) <= nearest_even (y / 2 ^ quantum x))%Z).
    { apply nearest_even_mono. pose proof (pow2_pos (quantum x)).
      apply Qle_shift_div_l; [done|].
      assert (x / 2 ^ quantum x * 2 ^ quantum x == x) as -> by (field; lra). done. }
    rewrite Zle_Qle in H. pose proof (pow2_pos (quantum x)). nra.
  - assert (Hq : (quantum x < quantum y)%Z) by (rewrite /quantum in Hne |- *; lia).
    assert (Hqy : quantum y = (exponent y - 52)%Z) by (rewrite /quantum in Hq |- *; lia).
    assert (Hex : (exponent x < exponent y)%Z) by (rewrite /quantum in Hq; lia).
    apply Qle_trans with (2 ^ exponent y).
    + apply round_pos_upper; [done| |rewrite /quantum in Hq Hqy |- *; lia].
      apply Qle_trans with (2 ^ (exponent x + 1)); [lra|]. apply pow2_le. lia.
    + apply round_pos_lower; [done|]. rewrite /quantum in Hq. lia.
Qed.



(** *** The rounding [fl] *)

Lemma fl_number (x : Q) : fl x ≠ NaN.
Proof.
  rewrite /fl. destruct (Qcompare x 0); try destruct (Qle_bool _ _); done.
Qed.


Lemma fl_mono (x y : Q) : x <= y → le (fl x) (fl y) = true.
Proof.
  intros Hxy. rewrite /fl.
  destruct (Qcompare_spec x 0) as [Hx|Hx|Hx];
    destruct (Qcompare_spec y 0) as [Hy|Hy|Hy]; try (exfalso; lra).
  - by apply Qle_bool_iff.
  - destruct (Qle_bool _ _); [done|]. apply Qle_bool_iff. rewrite Qred_correct.
    by apply round_pos_nonneg.
  - destruct (Qle_bool _ _); [done|]. apply Qle_bool_iff. rewrite Qred_correct.
    pose proof (round_pos_nonneg (- x)). lra.
  - assert (Hr : round_pos (- y) <= round_pos (- x)) by (apply round_pos_mono; lra).
    destruct (Qle_bool (2 ^ 1024) (round_pos (- x))) eqn:H1;
      [by destruct (Qle_bool (2 ^ 1024) (round_pos (- y)))|].
    apply Qle_bool_false in H1.
    assert (Qle_bool (2 ^ 1024) (round_pos (- y)) = false) as ->
      by (apply Qle_bool_false; lra).
    apply Qle_bool_iff. rewrite !Qred_correct. lra.
  - destruct (Qle_bool (2 ^ 1024) (round_pos (- x)));
      [by destruct (Qle_bool (2 ^ 1024) (round_pos y))|].
    destruct (Qle_bool (2 ^ 1024) (round_pos y)); [done|].
    apply Qle_bool_iff. rewrite !Qred_correct.
    pose proof (round_pos_nonneg (- x)). pose proof (round_pos_nonneg y). lra.
  - assert (Hr : round_pos x <= round_pos y) by by apply round_pos_mono.
    destruct (Qle_bool (2 ^ 1024) (round_pos y)) eqn:H1;
      [by destruct (Qle_bool (2 ^ 1024) (round_pos x))|].
    apply Qle_bool_false in H1.
    assert (Qle_bool (2 ^ 1024) (round_pos x) = false) as ->
      by (apply Qle_bool_false; lra).
    apply Qle_bool_iff. rewrite !Qred_correct. lra.
Qed.

(** A result between two doubles rounds to a double between them. *)
Lemma fl_between (a b x a' b' : Q) :
  a <= x → x <= b → fl a = Finite a' → fl b = Finite b' →
  ∃ y, fl x = Finite y ∧ a' <= y ∧ y <= b'.
Proof.
  intros Ha Hb Ea Eb.
  pose proof (fl_mono a x Ha) as H1. pose proof (fl_mono x b Hb) as H2.
  rewrite Ea in H1. rewrite Eb in H2.
  destruct (fl x) as [| | |y]; try done.
  exists y. split; [done|]. split; by apply Qle_bool_iff.
Qed.

Lemma Qred_inject_Z (n : Z) : Qred (inject_Z n) = inject_Z n.
Proof.
  rewrite /Qred /inject_Z.
  pose proof (Z.ggcd_gcd n 1) as Hg.
  pose proof (Z.ggcd_correct_divisors n 1) as Hd.
  destruct (Z.ggcd n 1) as [g [a b]]. simpl in Hg.
  rewrite Z.gcd_1_r in Hg. subst g. destruct Hd as [-> Hb].
  assert (b = 1%Z) as -> by lia. by rewrite /= Z.mul_1_l.
Qed.

Lemma round_pos_Z (n : Z) :
  (0 < n <= 2 ^ 53)%Z → round_pos (inject_Z n) == inject_Z n.
Proof.
  intros [Hn0 Hn].
  assert (Hx : 0 < inject_Z n) by (change 0 with (inject_Z 0); by rewrite -Zlt_Qlt).
  destruct (exponent_spec _ Hx) as [Hlo Hhi].
  set (e := exponent (inject_Z n)) in *.
  assert (He : (0 <= e <= 53)%Z).
  { split.
    - assert (2 ^ 0 < 2 ^ (e + 1)) as H%pow2_lt_inv; [|lia].
      change (2 ^ 0) with (inject_Z 1).
      apply Qle_lt_trans with (inject_Z n); [|done]. rewrite -Zle_Qle. lia.
    - assert (2 ^ e < 2 ^ 54) as H%pow2_lt_inv; [|lia].
      apply Qle_lt_trans with (inject_Z n); [done|].
      rewrite (pow2_Z 54) // -Zlt_Qlt. lia. }
  set (s := quantum (inject_Z n)).
  assert (Hs : s = (e - 52)%Z) by (rewrite /s /quantum -/e; lia).
  destruct (Z.le_gt_cases s 0) as [Hs0|Hs0].
  - apply (round_pos_exact _ (n * 2 ^ (- s))). rewrite -/s.
    rewrite inject_Z_mult -pow2_Z; [lia|]. rewrite Qpower_opp.
    pose proof (pow2_pos s). field. lra.
  - assert (e = 53%Z) by lia.
    assert (Hn' : n = (2 ^ 53)%Z).
    { apply Z.le_antisymm; [done|]. rewrite Zle_Qle -pow2_Z // -H. exact Hlo. }
    apply (round_pos_exact _ (2 ^ 52)). rewrite -/s.
    replace s with 1%Z by lia. subst n. reflexivity.
Qed.

(** An integer of at most 53 bits is a double. *)
Lemma fl_Z (n : Z) : (- 2 ^ 53 <= n <= 2 ^ 53)%Z → fl (inject_Z n) = of_Z n.
Proof.
  intros Hn. rewrite /fl /of_Z.
  destruct (Qcompare_spec (inject_Z n) 0) as [H0|H0|H0].
  - f_equal. destruct n; done.
  - assert (Hn0 : (n < 0)%Z) by (rewrite Zlt_Qlt; done).
    assert (Hr : round_pos (- inject_Z n) == inject_Z (- n)).
    { rewrite -inject_Z_opp. apply round_pos_Z. lia. }
    assert (Qle_bool (2 ^ 1024) (round_pos (- inject_Z n)) = false) as ->.
    { apply Qle_bool_false. rewrite Hr (pow2_Z 1024) // -Zlt_Qlt.
      apply Z.le_lt_trans with (2 ^ 53)%Z; [lia|done]. }
    f_equal. transitivity (Qred (inject_Z n)); [|apply Qred_inject_Z].
    apply Qred_complete. rewrite Hr inject_Z_opp. lra.
  - assert (Hn0 : (0 < n)%Z) by (rewrite Zlt_Qlt; done).
    assert (Hr : round_pos (inject_Z n) == inject_Z n) by (apply round_pos_Z; lia).
    assert (Qle_bool (2 ^ 1024) (round_pos (inject_Z n)) = false) as ->.
    { apply Qle_bool_false. rewrite Hr (pow2_Z 1024) // -Zlt_Qlt.
      apply Z.le_lt_trans with (2 ^ 53)%Z; [lia|done]. }
    f_equal. transitivity (Qred (inject_Z n)); [|apply Qred_inject_Z].
    by apply Qred_complete.
Qed.

End RoundingFacts.

Section NumberFacts.
Import JSNumber.
Local Open Scope Q_scope.

Lemma le_Finite (a b : Q) : le (Finite a) (Finite b) = true ↔ a <= b.
Proof. apply Qle_bool_iff. Qed.

Lemma le_refl (x : number) : x ≠ NaN → le x x = true.
Proof. destruct x; try done. intros _. apply le_Finite. lra. Qed.

Lemma le_trans (x y z : number) : le x y = true → le y z = true → le x z = true.
Proof.
  destruct x, y, z; try done. rewrite !le_Finite. lra.
Qed.

Lemma le_number (x y : number) : le x y = true → x ≠ NaN ∧ y ≠ NaN.
Proof. by destruct x, y. Qed.

Lemma gt_le (x y : number) : le x y = true → gt x y = false.
Proof.
  destruct x, y; try done. rewrite le_Finite /gt /lt. intros H.
  by apply Qlt_bool_false.
Qed.

Lemma Math_floor_number (x : number) : x ≠ NaN → Math_floor x ≠ NaN.
Proof. by destruct x. Qed.

Lemma Math_floor_mono (x y : number) :
  le x y = true → le (Math_floor x) (Math_floor y) = true.
Proof.
  destruct x, y; try done. rewrite /Math_floor /of_Z !le_Finite -Zle_Qle.
  apply Qfloor_resp_le.
Qed.

Lemma Math_min_number (x y : number) : x ≠ NaN → y ≠ NaN → Math_min x y ≠ NaN.
Proof. destruct x, y; try done. simpl. by destruct (Qle_bool _ _). Qed.

(** [Math.min(x, y)] is [NaN] or at most [y]. *)
Lemma Math_min_le (x y : number) : Math_min x y = NaN ∨ le (Math_min x y) y = true.
Proof.
  destruct x as [| | |a], y as [| | |b]; simpl; auto.
  - right. apply le_Finite. lra.
  - destruct (Qle_bool a b) eqn:H; right; apply le_Finite.
    + by apply Qle_bool_iff.
    + lra.
Qed.

Lemma Math_min_mono (x x' y : number) :
  y ≠ NaN → le x x' = true → le (Math_min x y) (Math_min x' y) = true.
Proof.
  intros Hy. destruct x as [| | |a], x' as [| | |a'], y as [| | |b]; try done; simpl.
  - intros _. by destruct (Qle_bool a' b).
  - intros _. apply le_Finite. lra.
  - intros _. destruct (Qle_bool a b) eqn:H; apply le_Finite; [by apply Qle_bool_iff|lra].
  - rewrite le_Finite. intros H.
    destruct (Qle_bool a b) eqn:H1; destruct (Qle_bool a' b) eqn:H2;
      try apply Qle_bool_iff in H1; try apply Qle_bool_iff in H2;
      try apply Qle_bool_false in H1; try apply Qle_bool_false in H2;
      apply le_Finite; lra.
Qed.

Lemma floor_between (x : Q) (a b : Z) :
  inject_Z a <= x → x <= inject_Z b → (a <= Qfloor x <= b)%Z.
Proof.
  intros Ha Hb. split.
  - rewrite -(Qfloor_Z a). by apply Qfloor_resp_le.
  - rewrite -(Qfloor_Z b). by apply Qfloor_resp_le.
Qed.

(** [randomize(d)] of a natural number [d] of at most 52 bits, for a draw
    in [0, 1): the sum is a double from 1 to 2, the product a double from
    [d] to [2 d], and the result its rounding to the nearest integer. *)
Lemma randomize_steps (u : Q) (d : Z) :
  0 <= u → u < 1 → (0 <= d <= 2 ^ 52)%Z →
  ∃ (s p : Q),
    add (Finite u) (of_Z 1) = Finite s
    ∧ mul (of_Z d) (Finite s) = Finite p
    ∧ randomize u (of_Z d) = of_Z (Qfloor (p + (1 # 2)))
    ∧ 1 <= s ∧ s <= 2
    ∧ inject_Z d <= p ∧ p <= inject_Z (2 * d).
Proof.
  intros Hu0 Hu1 Hd.
  destruct (fl_between 1 2 (u + inject_Z 1) 1 2) as (s & Hs & Hs1 & Hs2);
    [change (inject_Z 1) with 1; lra..|by vm_compute|by vm_compute|].
  assert (Hd0 : 0 <= inject_Z d) by (change 0 with (inject_Z 0); rewrite -Zle_Qle; lia).
  destruct (fl_between (inject_Z d) (inject_Z (2 * d)) (inject_Z d * s)
              (inject_Z d) (inject_Z (2 * d))) as (p & Hp & Hp1 & Hp2).
  - nra.
  - rewrite inject_Z_mult. change (inject_Z 2) with 2. nra.
  - apply fl_Z. lia.
  - apply fl_Z. lia.
  - exists s, p. rewrite /randomize /add /mul /of_Z Hs Hp /=. by split_and!.
Qed.

Lemma randomize_range (u : Q) (d : Z) :
  0 <= u → u < 1 → (0 <= d <= 2 ^ 52)%Z →
  ∃ n : Z, randomize u (of_Z d) = of_Z n ∧ (d <= n <= 2 * d)%Z.
Proof.
  intros Hu0 Hu1 Hd.
  destruct (randomize_steps u d Hu0 Hu1 Hd) as (s & p & _ & _ & Hr & _ & _ & Hp1 & Hp2).
  exists (Qfloor (p + (1 # 2))). split; [done|]. split.
  - rewrite -(Qfloor_Z d). apply Qfloor_resp_le. lra.
  - apply Z.lt_succ_r. rewrite Zlt_Qlt.
    apply Qle_lt_trans with (p + (1 # 2)); [apply Qfloor_le|].
    rewrite /Z.succ inject_Z_plus. change (inject_Z 1) with 1. lra.
Qed.

End NumberFacts.

Section BackoffFacts.
Import JSNumber.
Context {engine : Engine}.
Implicit Types (b : BackoffManager.t) (random : nat → Q).

(** What [duration] leaves of the manager. *)
Lemma duration_snd u b :
  (BackoffManager.duration u b).2 =
  BackoffManager.with_attempt (Datatypes.S (BackoffManager.attempt b))
    (BackoffManager.with_timeoutId (Some (BackoffManager.resetDuration b)) b).
Proof. rewrite /BackoffManager.duration /=. by case_match. Qed.

Lemma after_fields k random b :
  let b' := BackoffManager.after k random b in
  BackoffManager.min b' = BackoffManager.min b
  ∧ BackoffManager.max b' = BackoffManager.max b
  ∧ BackoffManager.factor b' = BackoffManager.factor b
  ∧ BackoffManager.jitter b' = BackoffManager.jitter b
  ∧ BackoffManager.attempt b' = (BackoffManager.attempt b + k)%nat.
Proof.
  induction k as [|k IH]; simpl.
  - split_and!; (done || lia).
  - rewrite duration_snd /=. destruct IH as (? & ? & ? & ? & ?).
    split_and!; (done || lia).
Qed.

Lemma threshold_fields b b' :
  BackoffManager.min b' = BackoffManager.min b →
  BackoffManager.max b' = BackoffManager.max b →
  BackoffManager.factor b' = BackoffManager.factor b →
  BackoffManager.threshold b' = BackoffManager.threshold b.
Proof. rewrite /BackoffManager.threshold. by intros -> -> ->. Qed.

Lemma duration_fst u b :
  (BackoffManager.duration u b).1
  = duration_of (BackoffManager.min b) (BackoffManager.max b) (BackoffManager.factor b)
      (BackoffManager.jitter b) (BackoffManager.attempt b) u.
Proof.
  rewrite /BackoffManager.duration /duration_of /BackoffManager.threshold /=.
  by case_match.
Qed.

Lemma nth_duration_fields k random b :
  BackoffManager.nth_duration k random b
  = duration_of (BackoffManager.min b) (BackoffManager.max b) (BackoffManager.factor b)
      (BackoffManager.jitter b) (BackoffManager.attempt b + k) (random k).
Proof.
  rewrite /BackoffManager.nth_duration duration_fst.
  by destruct (after_fields k random b) as (-> & -> & -> & -> & ->).
Qed.


(** [duration] returns [NaN] or at most [max]. *)
Lemma duration_of_le_max (min max factor jitter : number) (attempt : nat) (u : Q) :
  duration_of min max factor jitter attempt u = NaN
  ∨ le (duration_of min max factor jitter attempt u) max = true.
Proof.
  rewrite /duration_of. case_match; [|apply Math_min_le].
  destruct max; [by left|right..]; try done. apply le_Finite. lra.
Qed.

End BackoffFacts.

Section BackoffClaims.
Import JSNumber.
Local Open Scope Q_scope.





(** C7, as amended. For a duration [d] that is a natural number of at most
    52 bits and a draw in [0, 1), [randomize(d)] is the double product
    [d * (random + 1.0)], of the double sum, rounded to the nearest integer
    with a half going up ([Math.round], not a floor); it is an integer of
    the closed interval from [d] to [2 d]. *)
Theorem C7_randomize_rounds (random : Q) (d : Z) :
  0 <= random → random < 1 → (0 <= d <= 2 ^ 52)%Z →
  ∃ (s p : Q) (n : Z),
    add (Finite random) (of_Z 1) = Finite s
    ∧ mul (of_Z d) (Finite s) = Finite p
    ∧ randomize random (of_Z d) = of_Z n
    ∧ inject_Z n - (1 # 2) <= p ∧ p < inject_Z n + (1 # 2)
    ∧ (d <= n <= 2 * d)%Z.
Proof.
  intros Hr0 Hr1 Hd.
  destruct (randomize_steps random d Hr0 Hr1 Hd)
    as (s & p & Hs & Hp & Hr & _ & _ & Hp1 & Hp2).
  exists s, p, (Qfloor (p + (1 # 2))).
  pose proof (Qfloor_le (p + (1 # 2))) as Hlo.
  pose proof (Qlt_floor (p + (1 # 2))) as Hhi.
  rewrite inject_Z_plus in Hhi. change (inject_Z 1) with 1 in Hhi.
  split_and!; try done; try lra.
  - rewrite -(Qfloor_Z d). apply Qfloor_resp_le. lra.
  - apply Z.lt_succ_r. rewrite Zlt_Qlt.
    apply Qle_lt_trans with (p + (1 # 2)); [done|].
    rewrite /Z.succ inject_Z_plus inject_Z_mult.
    rewrite inject_Z_mult in Hp2.
    change (inject_Z 1) with 1. lra.
Qed.

Lemma C7_randomize_rounds_witness :
  ∃ (s p : Q) (n : Z),
    add (Finite (1023 # 1024)) (of_Z 1) = Finite s
    ∧ mul (of_Z 300) (Finite s) = Finite p
    ∧ randomize (1023 # 1024) (of_Z 300) = of_Z n
    ∧ inject_Z n - (1 # 2) <= p ∧ p < inject_Z n + (1 # 2)
    ∧ (300 <= n <= 2 * 300)%Z.
Proof.
  apply (C7_randomize_rounds (1023 # 1024) 300); [done|done|lia].
Defined.

(** C7, as stated, fails: [randomize] rounds where the claim takes the
    floor, so a draw close to 1 gives [2 d], outside of the half-open
    interval. The rounding of the product counts too: for the draw
    [37529996894754 / 2^52] the exact product is below 302.5 and the double
    product is 302.5, which [Math.round] takes to 303. *)
Lemma C7_randomize_counterexample :
  let random := 1023 # 1024 in
  let random' := 37529996894754 # 4503599627370496 in
  (0 <= random ∧ random < 1)
  ∧ randomize random (of_Z 300) = of_Z 600
  ∧ Qfloor (300 * (1 + random)) = 599%Z
  ∧ ¬ (600 < 2 * 300)%Z
  ∧ (0 <= random' ∧ random' < 1)
  ∧ randomize random' (of_Z 300) = of_Z 303
  ∧ Qfloor (300 * (1 + random')) = 302%Z
  ∧ Qfloor (300 * (1 + random') + (1 # 2)) = 302%Z.
Proof.
  split_and!; try done; by vm_compute.
Qed.

End BackoffClaims.

(** ** The end-to-end scenarios, on a store that records its calls *)

Section Scenarios.
Import Sample.

(** Scenario 1: [replace], then [add], then [delete]; the cursor ends at
    ["102"], the store that these calls build holds [b] and [c], and the
    Reflector waits for the next watch. *)
Example scenario_happy_path :
  let result := Reflector.listAndWatch reflector happy_path in
  result.1.1 = Pending
  ∧ recorded (Reflector.store result.1.2)
    = [CallSetRefreshing; CallReplace [item_a; item_b];
       CallAdd (x "c" "101"); CallDelete (x "a" "102")]
  ∧ Reflector.lastSyncResourceVersion result.1.2 = "102"
  ∧ requests result.2
    = [ListRequest "0" None; WatchRequest true (JSNumber.of_Z 300) "100";
       WatchRequest true (JSNumber.of_Z 300) "102"]
  ∧ dom (Store.kStore
           (Store.calls [Store.Replace [item_a; item_b]; Store.Add (x "c" "101");
                         Store.Delete (x "a" "102")] Store.create))
    = {[Some "b"; Some "c"]}.
Proof.
  split_and!; [reflexivity..|by vm_compute|reflexivity].
Qed.

(** Scenario 3: the watch that expires returns to the outer loop with the
    cursor at ["51"] and the unavailable flag clear, so the next list is at
    ["51"]. *)
Example scenario_watch_expires :
  let result := Reflector.listAndWatch reflector watch_expires in
  result.1.1 = Returned
  ∧ Reflector.isLastSyncResourceVersionUnavailable result.1.2 = false
  ∧ Reflector.relistResourceVersion result.1.2 = "51"
  ∧ requests result.2
    = [ListRequest "0" None; WatchRequest true (JSNumber.of_Z 300) "50"].
Proof. split_and!; [reflexivity..|by vm_compute]. Qed.

(** Scenario 4: after *connection refused* the watch is retried after a
    delay, without a list in between. *)
Example scenario_connection_refused :
  let result := Reflector.listAndWatch reflector connection_refused in
  result.1.1 = Pending
  ∧ requests result.2
    = [ListRequest "0" None; WatchRequest true (JSNumber.of_Z 300) "50";
       Delay (JSNumber.of_Z 1000); WatchRequest true (JSNumber.of_Z 300) "50"].
Proof. split_and!; [reflexivity|by vm_compute]. Qed.

End Scenarios.

(** * Further properties *)

(** ** More of the Store *)

Section StoreMore.
Implicit Types (s : Store.t) (o : KObject.t) (k : Key).
Implicit Types (items : list KObject.t).

(** X1. After [add(o)] the store has [o] under its key and every other key
    as before; [update] is the same operation, and adding the same object
    twice is adding it once. *)
Theorem X1_add_then_lookup s o k :
  Store.getByKey k (Store.add o s)
  = (if bool_decide (k = Store.kKeyFunc s o) then Some o else Store.getByKey k s)
  ∧ Store.get o (Store.add o s) = Some o
  ∧ Store.has o (Store.add o s) = true
  ∧ Store.update o s = Store.add o s
  ∧ Store.add o (Store.add o s) = Store.add o s.
Proof.
  split_and!.
  - rewrite /Store.getByKey /=. case_bool_decide as Hk.
    + by rewrite Hk lookup_insert_eq.
    + by rewrite lookup_insert_ne.
  - by rewrite /Store.get /Store.getByKey /Store.kKeyFunc /= lookup_insert_eq.
  - rewrite /Store.has hasByKey_true /Store.getByKey /Store.kKeyFunc /=.
    by rewrite lookup_insert_eq.
  - done.
  - rewrite /Store.add /Store.with_kStore /Store.kKeyFunc /=.
    by rewrite insert_insert_eq.
Qed.

(** X2. After [delete(o)] the key of [o] is gone and every other key is as
    before; deleting twice is deleting once, and the promise is untouched. *)
Theorem X2_delete_then_lookup s o k :
  Store.getByKey k (Store.delete o s)
  = (if bool_decide (k = Store.kKeyFunc s o) then None else Store.getByKey k s)
  ∧ Store.has o (Store.delete o s) = false
  ∧ Store.delete o (Store.delete o s) = Store.delete o s
  ∧ Store.hasSynced (Store.delete o s) = Store.hasSynced s.
Proof.
  split_and!.
  - rewrite /Store.getByKey /=. case_bool_decide as Hk.
    + by rewrite Hk lookup_delete_eq.
    + by rewrite lookup_delete_ne.
  - rewrite /Store.has hasByKey_false /Store.getByKey /Store.kKeyFunc /=.
    by rewrite lookup_delete_eq.
  - rewrite /Store.delete /Store.with_kStore /Store.kKeyFunc /=.
    f_equal. apply delete_id. by rewrite lookup_delete_eq.
  - done.
Qed.

Lemma set_all_calls items s :
  Store.set_all items s = Store.calls (Store.Add <$> items) s.
Proof.
  revert s. induction items as [|o items IH]; intros s; [done|].
  by rewrite /= IH.
Qed.

Lemma set_all_kStore items s s' :
  Store.kStore s = Store.kStore s' → Store.kKeyPath s = Store.kKeyPath s' →
  Store.kStore (Store.set_all items s) = Store.kStore (Store.set_all items s').
Proof.
  intros Hs Hk. apply map_eq. intros k.
  by rewrite !set_all_lookup Hs Hk.
Qed.

Lemma store_eq s s' :
  Store.kStore s = Store.kStore s' → Store.kHasSynced s = Store.kHasSynced s' →
  Store.kKeyPath s = Store.kKeyPath s' → s = s'.
Proof. destruct s, s'; simpl; by intros -> -> ->. Qed.

(** X3. [replace(items)] is [clear()] followed by [add] of each item in
    order, and then the promise is resolved. What it leaves does not depend
    on what the store held, and replacing twice with the same items is
    replacing once. *)
Theorem X3_replace_is_clear_then_adds s items :
  Store.replace items s
  = Store.kSetSynced true (Store.calls (Store.Clear :: (Store.Add <$> items)) s)
  ∧ (∀ map, Store.kStore (Store.replace items s)
            = Store.kStore (Store.replace items (Store.new map (Store.kKeyPath s))))
  ∧ Store.replace items (Store.replace items s) = Store.replace items s.
Proof.
  split_and!.
  - by rewrite /Store.replace set_all_calls.
  - intros map. rewrite /Store.replace /=. by apply set_all_kStore.
  - apply store_eq.
    + rewrite {1 3}/Store.replace /=. apply set_all_kStore; [done|].
      by rewrite /= set_all_kKeyPath.
    + rewrite /Store.replace /= !set_all_kHasSynced /= !set_all_kHasSynced /=.
      by destruct (Store.kHasSynced s).
    + by rewrite !replace_kKeyPath.
Qed.

Lemma call_hasSynced c s :
  Store.hasSynced (Store.call c s)
  = if is_replace c then (match Store.hasSynced s with None => Some true | Some v => Some v end)
    else Store.hasSynced s.
Proof.
  destruct c; try done. rewrite /Store.hasSynced /= set_all_kHasSynced //.
Qed.

(** X4. Only [replace] resolves [hasSynced]: on a store made by the
    constructor the promise is resolved with [true] once a [replace] is
    among the calls made, and it is pending otherwise. *)
Theorem X4_hasSynced_iff_replaced (map : gmap Key KObject.t) (keyPath : KObject.t → Key)
    (cs : list Store.Call) :
  Store.hasSynced (Store.calls cs (Store.new map keyPath))
  = if existsb is_replace cs then Some true else None.
Proof.
  assert (H : ∀ s, promise_ok s →
    Store.hasSynced (Store.calls cs s)
    = if existsb is_replace cs then Some true else Store.hasSynced s).
  { induction cs as [|c cs IH]; intros s Hs; [done|].
    rewrite /= IH; [by apply call_promise_ok|].
    rewrite call_hasSynced. destruct (is_replace c); simpl.
    - rewrite /promise_ok in Hs. rewrite /Store.hasSynced.
      destruct Hs as [-> | ->]; by destruct (existsb _ _).
    - done. }
  rewrite H; [by left|done].
Qed.

(** X5. [listKeys()] has each key of the store once, [list()] has the
    objects of the store, one for each key, and both are empty after
    [clear()]. *)
Theorem X5_listKeys_and_list s :
  (∀ k, k ∈ Store.listKeys s ↔ Store.hasByKey k s = true)
  ∧ NoDup (Store.listKeys s)
  ∧ (∀ o, o ∈ Store.list s ↔ ∃ k, Store.getByKey k s = Some o)
  ∧ length (Store.list s) = length (Store.listKeys s)
  ∧ Store.listKeys (Store.clear s) = []
  ∧ Store.list (Store.clear s) = [].
Proof.
  split_and!.
  - intros k. rewrite hasByKey_true /Store.listKeys /Store.getByKey.
    rewrite list_elem_of_fmap. split.
    + intros [[k' o] [-> Hin]]. apply elem_of_map_to_list in Hin. by exists o.
    + intros [o Ho]. exists (k, o). split; [done|]. by apply elem_of_map_to_list.
  - apply NoDup_fst_map_to_list.
  - intros o. rewrite /Store.list /Store.getByKey list_elem_of_fmap. split.
    + intros [[k o'] [-> Hin]]. apply elem_of_map_to_list in Hin. by exists k.
    + intros [k Hk]. exists (k, o). split; [done|]. by apply elem_of_map_to_list.
  - by rewrite /Store.list /Store.listKeys !length_fmap.
  - by rewrite /Store.listKeys /= map_to_list_empty.
  - by rewrite /Store.list /= map_to_list_empty.
Qed.

Lemma X5_listKeys_and_list_witness :
  Some "a" ∈ Store.listKeys (Store.add Sample.item_a Store.create).
Proof.
  apply (X5_listKeys_and_list (Store.add Sample.item_a Store.create)).
  reflexivity.
Defined.

(** X6. With the default key path, objects without [metadata.uid] share the
    key [undefined]: of two such objects added to a new store, the store
    holds the second one only. *)
Theorem X6_objects_without_uid_collide o1 o2 :
  KObject.metadata_uid o1 = None → KObject.metadata_uid o2 = None →
  Store.kStore (Store.add o2 (Store.add o1 Store.create)) = {[ None := o2 ]}
  ∧ Store.get o1 (Store.add o2 (Store.add o1 Store.create)) = Some o2.
Proof.
  intros H1 H2.
  rewrite /Store.get /Store.getByKey /Store.add /Store.kKeyFunc /= H1 H2.
  rewrite insert_insert_eq insert_empty. split; [done|].
  by rewrite lookup_singleton_eq.
Qed.

Lemma X6_objects_without_uid_collide_witness :
  let o1 := {| KObject.apiVersion := Some "v1"; KObject.kind := Some "X";
               KObject.metadata := None; KObject.payload := "first" |} in
  let o2 := {| KObject.apiVersion := Some "v1"; KObject.kind := Some "X";
               KObject.metadata := None; KObject.payload := "second" |} in
  Store.get o1 (Store.add o2 (Store.add o1 Store.create)) = Some o2.
Proof.
  intros o1 o2.
  exact (proj2 (X6_objects_without_uid_collide o1 o2 eq_refl eq_refl)).
Defined.

End StoreMore.

(** ** More of the BackoffManager *)

Section BackoffMore.
Local Open Scope Q_scope.
Import JSNumber.
Context {engine : Engine}.
Implicit Types (b : BackoffManager.t) (random : nat → Q).

(** X7. Whatever its parameters and whatever the draw, [duration()] never
    returns more than [max]: it returns [NaN] (as it does for a [min] of 0
    and a power that overflows) or a number that is at most [max]. It
    counts the attempt, arms the idle timer with [resetDuration] and leaves
    the parameters as they are. *)
Theorem X7_duration_at_most_max u b :
  ((BackoffManager.duration u b).1 = NaN
   ∨ le (BackoffManager.duration u b).1 (BackoffManager.max b) = true)
  ∧ gt (BackoffManager.duration u b).1 (BackoffManager.max b) = false
  ∧ BackoffManager.attempt (BackoffManager.duration u b).2
    = Datatypes.S (BackoffManager.attempt b)
  ∧ BackoffManager.timeoutId (BackoffManager.duration u b).2
    = Some (BackoffManager.resetDuration b)
  ∧ BackoffManager.min (BackoffManager.duration u b).2 = BackoffManager.min b
  ∧ BackoffManager.max (BackoffManager.duration u b).2 = BackoffManager.max b
  ∧ BackoffManager.factor (BackoffManager.duration u b).2 = BackoffManager.factor b
  ∧ BackoffManager.jitter (BackoffManager.duration u b).2 = BackoffManager.jitter b.
Proof.
  rewrite duration_fst duration_snd.
  pose proof (duration_of_le_max (BackoffManager.min b) (BackoffManager.max b)
                (BackoffManager.factor b) (BackoffManager.jitter b)
                (BackoffManager.attempt b) u) as H.
  split_and!; try done.
  destruct H as [->|H]; [by destruct (BackoffManager.max b)|by apply gt_le].
Qed.

(** X8. After [reset()] the manager starts over: whatever number of calls
    went before, call number [k] after the reset returns what call number
    [k] of a manager that was never called returns. *)
Theorem X8_reset_starts_over (o : BackoffManager.options) (j k : nat) random random' :
  BackoffManager.nth_duration k random
    (BackoffManager.reset (BackoffManager.after j random' (BackoffManager.create o)))
  = BackoffManager.nth_duration k random (BackoffManager.create o)
  ∧ BackoffManager.attempt
      (BackoffManager.reset (BackoffManager.after j random' (BackoffManager.create o)))
    = 0%nat.
Proof.
  split; [|done]. rewrite !nth_duration_fields.
  destruct (after_fields j random' (BackoffManager.create o))
    as (Hmin & Hmax & Hf & Hj & Ha).
  cbn [BackoffManager.reset BackoffManager.with_attempt BackoffManager.min
       BackoffManager.max BackoffManager.factor BackoffManager.jitter
       BackoffManager.attempt].
  by rewrite Hmin Hmax Hf Hj.
Qed.

Lemma gt_succ (a : nat) (t : number) :
  gt (of_nat a) t = true → gt (of_nat (Datatypes.S a)) t = true.
Proof.
  destruct t as [| | |q]; try done. rewrite /gt /lt /of_nat /of_Z !Qlt_bool_true.
  intros H. apply Qlt_le_trans with (inject_Z (Z.of_nat a)); [done|].
  rewrite -Zle_Qle. lia.
Qed.

Lemma mul_pos_number (m : Q) (p : number) : 0 < m → p ≠ NaN → mul (Finite m) p ≠ NaN.
Proof.
  intros Hm Hp. destruct p as [| | |a]; try done; simpl.
  - assert (Qeq_bool m 0 = false) as -> by (apply Qeq_bool_false; lra). by destruct (Qlt_bool m 0).
  - assert (Qeq_bool m 0 = false) as -> by (apply Qeq_bool_false; lra). by destruct (Qlt_bool 0 m).
  - apply fl_number.
Qed.

Lemma mul_pos_mono (m : Q) (p p' : number) :
  0 < m → le p p' = true → le (mul (Finite m) p) (mul (Finite m) p') = true.
Proof.
  intros Hm Hp.
  assert (E0 : Qeq_bool m 0 = false) by (apply Qeq_bool_false; lra).
  assert (E1 : Qlt_bool m 0 = false) by (apply Qlt_bool_false; lra).
  assert (E2 : Qlt_bool 0 m = true) by by apply Qlt_bool_true.
  destruct p as [| | |a], p' as [| | |a']; try done;
    rewrite /mul ?E0 ?E1 ?E2 /=; try done.
  - pose proof (fl_number (m * a')). by destruct (fl (m * a')).
  - pose proof (fl_number (m * a)). by destruct (fl (m * a)).
  - apply fl_mono. apply le_Finite in Hp. nra.
Qed.

(** X9. Without jitter and with a positive [min], where the engine's power
    of the factor does not decrease from one attempt to the next, the
    duration does not decrease from one call to the next. *)
Theorem X9_durations_do_not_decrease b random (k : nat) (m : Q) :
  truthy (BackoffManager.jitter b) = false →
  BackoffManager.min b = Finite m → 0 < m →
  BackoffManager.max b ≠ NaN →
  le (Math_pow (BackoffManager.factor b) (BackoffManager.attempt b + k))
     (Math_pow (BackoffManager.factor b) (Datatypes.S (BackoffManager.attempt b + k)))
  = true →
  le (BackoffManager.nth_duration k random b)
     (BackoffManager.nth_duration (Datatypes.S k) random b) = true.
Proof.
  intros Hj Hmin Hm Hmax Hpow. rewrite !nth_duration_fields /duration_of Hj Hmin.
  replace (BackoffManager.attempt b + Datatypes.S k)%nat
    with (Datatypes.S (BackoffManager.attempt b + k)) by lia.
  set (a := (BackoffManager.attempt b + k)%nat) in *.
  set (t := Math_floor _).
  destruct (le_number _ _ Hpow) as [Hp Hp'].
  destruct (gt (of_nat a) t) eqn:Hgt.
  - rewrite (gt_succ _ _ Hgt). by apply le_refl.
  - destruct (gt (of_nat (Datatypes.S a)) t).
    + destruct (Math_min_le
                  (Math_floor (mul (Finite m) (Math_pow (BackoffManager.factor b) a)))
                  (BackoffManager.max b)) as [H|H]; [|done].
      exfalso. revert H. apply Math_min_number; [|done].
      by apply Math_floor_number, mul_pos_number.
    + apply Math_min_mono; [done|]. by apply Math_floor_mono, mul_pos_mono.
Qed.

Lemma create_jitter_range (o : BackoffManager.options) :
  ∃ j, BackoffManager.jitter (BackoffManager.create o) = Finite j ∧ 0 <= j ∧ j <= 1.
Proof.
  rewrite /BackoffManager.create. cbn [BackoffManager.jitter].
  destruct (gt (BackoffManager.opt_jitter o) (of_Z 0)
            && le (BackoffManager.opt_jitter o) (of_Z 1)) eqn:H.
  - apply andb_prop in H as [H0 H1].
    destruct (BackoffManager.opt_jitter o) as [| | |j]; try done.
    exists j. split; [done|].
    apply Qlt_bool_true in H0. apply Qle_bool_iff in H1.
    change (inject_Z 0) with 0 in H0. change (inject_Z 1) with 1 in H1. lra.
  - exists 0. split; [done|]. lra.
Qed.

(** Two results in order between two doubles round to doubles in order
    between them. *)
Lemma fl_chain (lo hi x x' lo' hi' : Q) :
  lo <= x → x <= x' → x' <= hi → fl lo = Finite lo' → fl hi = Finite hi' →
  ∃ y y', fl x = Finite y ∧ fl x' = Finite y' ∧ lo' <= y ∧ y <= y' ∧ y' <= hi'.
Proof.
  intros H1 H2 H3 Elo Ehi.
  destruct (fl_between lo hi x lo' hi') as (y & Ey & Hy1 & Hy2); [lra..|done|done|].
  destruct (fl_between lo hi x' lo' hi') as (y' & Ey' & Hy1' & Hy2'); [lra..|done|done|].
  exists y, y'. split_and!; try done.
  pose proof (fl_mono x x' H2) as H. rewrite Ey Ey' in H. by apply le_Finite.
Qed.

(** The factor that the jitter applies, for two draws in order: a double
    from 0 to 2, in the order of the draws. *)
Lemma jitter_factor (j u u' : Q) :
  0 <= j → j <= 1 → 0 <= u → u <= u' → u' < 1 →
  ∃ x x',
    add (of_Z 1) (mul (Finite j) (sub (mul (of_Z 2) (Finite u)) (of_Z 1))) = Finite x
    ∧ add (of_Z 1) (mul (Finite j) (sub (mul (of_Z 2) (Finite u')) (of_Z 1))) = Finite x'
    ∧ 0 <= x ∧ x <= x' ∧ x' <= 2.
Proof.
  intros Hj0 Hj1 Hu0 Huu Hu1. rewrite /mul /sub /add /of_Z.
  change (inject_Z 2) with 2. change (inject_Z 1) with 1.
  destruct (fl_chain 0 2 (2 * u) (2 * u') 0 2) as (a & a' & -> & -> & Ha0 & Haa & Ha2);
    [lra..|by vm_compute|by vm_compute|].
  destruct (fl_chain (-1) 1 (a - 1) (a' - 1) (-1) 1)
    as (c & c' & -> & -> & Hc0 & Hcc & Hc2); [lra..|by vm_compute|by vm_compute|].
  destruct (fl_chain (-1) 1 (j * c) (j * c') (-1) 1)
    as (e & e' & -> & -> & He0 & Hee & He2); [nra..|by vm_compute|by vm_compute|].
  destruct (fl_chain 0 2 (1 + e) (1 + e') 0 2)
    as (x & x' & -> & -> & Hx0 & Hxx & Hx2); [lra..|by vm_compute|by vm_compute|].
  by exists x, x'.
Qed.

(** X10. With jitter, a larger draw never gives a shorter duration. For a
    manager made by the constructor, two draws in order in [0, 1), and a
    product [min * Math.pow(factor, attempt)] that is finite and not
    negative, the duration for the smaller draw is at most the duration for
    the larger one, and both are at most [max]. *)
Theorem X10_jitter_bounds (o : BackoffManager.options) random random' (k : nat) (d : Q) :
  let b := BackoffManager.create o in
  0 <= random k → random k <= random' k → random' k < 1 →
  mul (BackoffManager.min b) (Math_pow (BackoffManager.factor b) k) = Finite d →
  0 <= d →
  BackoffManager.max b ≠ NaN →
  le (BackoffManager.nth_duration k random b) (BackoffManager.nth_duration k random' b)
  = true
  ∧ le (BackoffManager.nth_duration k random' b) (BackoffManager.max b) = true.
Proof.
  intros b Hu0 Huu Hu1 Hd Hd0 Hmax.
  rewrite !nth_duration_fields /duration_of.
  change (BackoffManager.attempt b + k)%nat with k. rewrite Hd.
  destruct (gt (of_nat k) _); [split; by apply le_refl|].
  destruct (create_jitter_range o) as (j & Hj & Hj0 & Hj1). fold b in Hj.
  rewrite Hj.
  assert (Hmin : ∀ v, v ≠ NaN → le (Math_min v (BackoffManager.max b)) (BackoffManager.max b)
                                = true).
  { intros v Hv. destruct (Math_min_le v (BackoffManager.max b)) as [H|H]; [|done].
    exfalso. revert H. by apply Math_min_number. }
  destruct (truthy (Finite j)).
  - destruct (jitter_factor j (random k) (random' k)) as (x & x' & -> & -> & Hx0 & Hxx & Hx2);
      [done..|].
    split.
    + apply Math_min_mono; [done|]. do 2 apply Math_floor_mono.
      apply fl_mono. nra.
    + apply Hmin. do 2 apply Math_floor_number. apply fl_number.
  - split; [apply le_refl|apply Hmin]; by apply Math_min_number || done.
Qed.

End BackoffMore.

Section BackoffExamples.
Import JSNumber.
Local Open Scope Q_scope.
#[local] Existing Instance Sample.engine.

Lemma X9_durations_do_not_decrease_witness :
  le (BackoffManager.nth_duration 3 (λ _, 0) (BackoffManager.create Sample.no_jitter))
     (BackoffManager.nth_duration 4 (λ _, 0) (BackoffManager.create Sample.no_jitter))
  = true.
Proof.
  apply (X9_durations_do_not_decrease (BackoffManager.create Sample.no_jitter)
           (λ _, 0) 3 800); [reflexivity|reflexivity|done|done|by vm_compute].
Defined.

Lemma X10_jitter_bounds_witness :
  le (BackoffManager.nth_duration 2 (λ _, 1 # 4)
        (BackoffManager.create BackoffManager.defaults))
     (BackoffManager.nth_duration 2 (λ _, 1 # 2)
        (BackoffManager.create BackoffManager.defaults))
  = true.
Proof.
  refine (proj1 (X10_jitter_bounds BackoffManager.defaults (λ _, 1 # 4) (λ _, 1 # 2)
                   2 1800 _ _ _ _ _ _));
    [done|done|done|by vm_compute|done|done].
Defined.

(** With a [min] of 0 and the factor [1e308], the third call of [duration]
    returns [NaN]: the power overflows, and 0 times infinity is [NaN]. *)
Example duration_NaN :
  map (λ k, BackoffManager.nth_duration k (λ _, 0) (BackoffManager.create Sample.overflowing))
    (seq 0 3)
  = [of_Z 0; of_Z 0; NaN].
Proof. by vm_compute. Qed.

End BackoffExamples.

(** ** More of the Reflector: the watch handler *)

Section HandlerMore.
Context {S E : Type} {sink : StoreSink.t S} {errors : ApiErrors.t E}.
Implicit Types (r : Reflector.t S) (w : Server E) (object : KObject.t).
Implicit Types (data : WatchData E) (stream : list (WatchData E)).

Lemma matches_test r object :
  negb (bool_decide (KObject.apiVersion object = Some (Reflector.apiVersion r)))
  || negb (bool_decide (KObject.kind object = Reflector.kind r))
  = negb (matches r object).
Proof. rewrite /matches. by rewrite negb_andb. Qed.

Lemma matches_listWatcher r r' object :
  Reflector.listWatcher r' = Reflector.listWatcher r →
  matches r' object = matches r object.
Proof. rewrite /matches /Reflector.apiVersion /Reflector.kind. by intros ->. Qed.

Lemma effect_listWatcher r r' data :
  Reflector.listWatcher r' = Reflector.listWatcher r →
  effect r' data = effect r data.
Proof.
  intros H. destruct data as [e|type object]; [done|].
  by rewrite /effect (matches_listWatcher r r').
Qed.

Lemma observed_version_listWatcher r r' data :
  Reflector.listWatcher r' = Reflector.listWatcher r →
  observed_version r' data = observed_version r data.
Proof.
  intros H. destruct data as [e|type object]; [done|].
  by rewrite /observed_version (matches_listWatcher r r').
Qed.

Lemma omap_effect_listWatcher r r' stream :
  Reflector.listWatcher r' = Reflector.listWatcher r →
  omap (effect r') stream = omap (effect r) stream.
Proof.
  intros H. induction stream as [|data stream IH]; [done|].
  cbn [omap list_omap]. by rewrite IH (effect_listWatcher r r').
Qed.

Lemma foldl_observed_listWatcher r r' stream v :
  Reflector.listWatcher r' = Reflector.listWatcher r →
  foldl (λ v data, default v (observed_version r' data)) v stream
  = foldl (λ v data, default v (observed_version r data)) v stream.
Proof.
  intros H. revert v. induction stream as [|data stream IH]; intros v; [done|].
  by rewrite /= IH (observed_version_listWatcher r r').
Qed.

(** One datum: what is thrown, what the store and the cursor become, and
    what stays. *)
Lemma handle_step data r :
  (Reflector.handle data r).1 = error_of data
  ∧ Reflector.store (Reflector.handle data r).2
    = (if throws data then Reflector.store r
       else from_option (λ m, mutate m (Reflector.store r)) (Reflector.store r)
              (effect r data))
  ∧ Reflector.lastSyncResourceVersion (Reflector.handle data r).2
    = (if throws data then Reflector.lastSyncResourceVersion r
       else default (Reflector.lastSyncResourceVersion r) (observed_version r data))
  ∧ same_control r (Reflector.handle data r).2.
Proof.
  destruct data as [e|type object]; [done|].
  rewrite /Reflector.handle /= matches_test.
  destruct (String.eqb type "ERROR") eqn:Herr; [done|].
  destruct (matches r object) eqn:Hm; simpl; [|done].
  destruct (Reflector.truthy (KObject.metadata_resourceVersion object)) eqn:Hrv.
  - destruct (KObject.metadata_resourceVersion object) as [v|]; [|done].
    repeat case_match; done.
  - repeat case_match; done.
Qed.

Lemma same_control_trans r1 r2 r3 :
  same_control r1 r2 → same_control r2 r3 → same_control r1 r3.
Proof.
  rewrite /same_control. intros (-> & -> & -> & -> & ->) (-> & -> & -> & -> & ->).
  done.
Qed.

Lemma same_control_refl r : same_control r r.
Proof. done. Qed.

(** The whole stream, as a fold over the data before the first one that is
    thrown. *)
Lemma handle_all_fold stream r :
  (Reflector.handle_all stream r).1 = thrown stream
  ∧ Reflector.store (Reflector.handle_all stream r).2
    = foldl (λ s m, mutate m s) (Reflector.store r) (omap (effect r) (handled stream))
  ∧ Reflector.lastSyncResourceVersion (Reflector.handle_all stream r).2
    = foldl (λ v data, default v (observed_version r data))
        (Reflector.lastSyncResourceVersion r) (handled stream)
  ∧ same_control r (Reflector.handle_all stream r).2.
Proof.
  revert r. induction stream as [|data stream IH]; intros r; [done|].
  destruct (handle_step data r) as (Herr & Hstore & Hrv & Hc).
  simpl. destruct (Reflector.handle data r) as [[e|] r1] eqn:Hh; simpl in *.
  - assert (Ht : throws data = true).
    { destruct data as [?|type object]; [done|]. simpl in *.
      by destruct (String.eqb type "ERROR"). }
    rewrite Ht in Hstore, Hrv. rewrite Ht /=. by rewrite Hstore Hrv.
  - assert (Ht : throws data = false).
    { destruct data as [?|type object]; [done|]. simpl in *.
      by destruct (String.eqb type "ERROR"). }
    rewrite Ht in Hstore, Hrv. rewrite Ht.
    destruct (IH r1) as (IH1 & IH2 & IH3 & IH4).
    assert (Hl : Reflector.listWatcher r1 = Reflector.listWatcher r) by apply Hc.
    split_and!.
    + done.
    + rewrite IH2 Hstore /= (omap_effect_listWatcher r r1) //.
      by destruct (effect r data).
    + by rewrite IH3 Hrv /= (foldl_observed_listWatcher r r1).
    + by eapply same_control_trans.
Qed.

Lemma foldl_default_last {A B : Type} (f : B → option A) (l : list B) (v : A) :
  foldl (λ v x, default v (f x)) v l = default v (last (omap f l)).
Proof.
  revert v. induction l as [|x l IH]; intros v; [done|].
  cbn [foldl omap list_omap]. rewrite IH. destruct (f x) as [y|]; [|done].
  simpl. rewrite last_cons. by destruct (last (omap f l)).
Qed.

Lemma very_short (asyncIterable : WatchStream E) r :
  Reflector.watchHandler asyncIterable r
  = match Reflector.handle_all (events asyncIterable) r with
    | (Some e, r') => (Some e, r')
    | (None, r') =>
        (if JSNumber.Qlt_bool (elapsed asyncIterable) 1000
            && Nat.eqb (length (events asyncIterable)) 0
         then Some (ApiErrors.Error
                      ("Very short watch " ++ Reflector.expectedTypeName r' ++
                       " - watch lasted less than a second and no items received"))
         else None, r')
    end.
Proof.
  rewrite /Reflector.watchHandler.
  destruct (Reflector.handle_all _ _) as [[e|] r']; [done|]. by destruct (_ && _).
Qed.

Lemma watchHandler_snd (asyncIterable : WatchStream E) r :
  (Reflector.watchHandler asyncIterable r).2
  = (Reflector.handle_all (events asyncIterable) r).2.
Proof.
  rewrite very_short. destruct (Reflector.handle_all _ _) as [[e|] r']; done.
Qed.

(** X11. The watch handler applies the events to the store in the order of
    the stream: the store after it is the store before it with [add],
    [update] or [delete] called for each [ADDED], [MODIFIED] or [DELETED]
    event of the expected type, up to the first datum that is thrown.
    Nothing else of the Reflector changes but the cursor, and what is thrown
    is the first error of the stream or, for a stream without data that
    lasted less than a second, the error of a very short watch. *)
Theorem X11_watchHandler_applies_in_order (asyncIterable : WatchStream E) r :
  Reflector.store (Reflector.watchHandler asyncIterable r).2
  = foldl (λ s m, mutate m s) (Reflector.store r)
      (omap (effect r) (handled (events asyncIterable)))
  ∧ same_control r (Reflector.watchHandler asyncIterable r).2
  ∧ (Reflector.watchHandler asyncIterable r).1
    = match thrown (events asyncIterable) with
      | Some e => Some e
      | None =>
          if JSNumber.Qlt_bool (elapsed asyncIterable) 1000
             && Nat.eqb (length (events asyncIterable)) 0
          then Some (ApiErrors.Error
                       ("Very short watch " ++ Reflector.expectedTypeName r ++
                        " - watch lasted less than a second and no items received"))
          else None
      end.
Proof.
  destruct (handle_all_fold (events asyncIterable) r) as (Hthrown & Hstore & _ & Hc).
  rewrite watchHandler_snd. split_and!; [done|done|].
  rewrite very_short -Hthrown.
  destruct (Reflector.handle_all _ _) as [[e|] r'] eqn:Hh; [done|]. simpl.
  assert (Hn : Reflector.expectedTypeName r' = Reflector.expectedTypeName r).
  { rewrite /Reflector.expectedTypeName /Reflector.apiVersion /Reflector.kind.
    simpl in Hc. by destruct Hc as (-> & _). }
  by rewrite Hn.
Qed.

(** X12. The cursor after the watch handler is the resource version of the
    last event that brought one, among the events handled before anything
    was thrown: an event brings a resource version when its object is of the
    expected type and has a [metadata.resourceVersion] that is not empty.
    Without such an event the cursor is as it was. *)
Theorem X12_cursor_is_last_observed (asyncIterable : WatchStream E) r :
  Reflector.lastSyncResourceVersion (Reflector.watchHandler asyncIterable r).2
  = default (Reflector.lastSyncResourceVersion r)
      (last (omap (observed_version r) (handled (events asyncIterable)))).
Proof.
  destruct (handle_all_fold (events asyncIterable) r) as (_ & _ & Hrv & _).
  by rewrite watchHandler_snd Hrv foldl_default_last.
Qed.

Lemma handle_all_throwing pre data post r :
  throws data = true →
  Reflector.handle_all (pre ++ data :: post) r
  = Reflector.handle_all (pre ++ [data]) r.
Proof.
  intros Ht. rewrite !handle_all_app.
  destruct (Reflector.handle_all pre r) as [[e|] r1]; [done|].
  cbn [Reflector.handle_all].
  destruct (handle_step data r1) as (Herr & _).
  destruct (Reflector.handle data r1) as [[e|] r2]; [done|]. simpl in Herr.
  destruct data as [?|type object]; [done|]. simpl in *. by rewrite Ht in Herr.
Qed.

(** X13. An [Error] value in the stream, or an event of type [ERROR], ends
    the handling: the data that follow it in the stream are not handled. *)
Theorem X13_nothing_after_an_error pre post r (e : E) object :
  Reflector.handle_all (pre ++ DataError e :: post) r
  = Reflector.handle_all (pre ++ [DataError e]) r
  ∧ Reflector.handle_all (pre ++ DataEvent "ERROR" object :: post) r
    = Reflector.handle_all (pre ++ [DataEvent "ERROR" object]) r
  ∧ (Reflector.handle_all (pre ++ DataError e :: post) r).1
    = Some (default e (thrown pre))
  ∧ (Reflector.handle_all (pre ++ DataEvent "ERROR" object :: post) r).1
    = Some (default (ApiErrors.StatusError object) (thrown pre)).
Proof.
  assert (Ht : ∀ (data : WatchData E) err, throws data = true → error_of data = Some err →
    thrown (pre ++ data :: post) = Some (default err (thrown pre))).
  { intros data err Hd He. induction pre as [|d pre IH]; simpl.
    - by rewrite Hd He.
    - destruct (throws d) eqn:Htd; [|done].
      destruct d as [e'|type o]; [done|]. simpl in *. by rewrite Htd. }
  split_and!.
  - by apply handle_all_throwing.
  - by apply handle_all_throwing.
  - destruct (handle_all_fold (pre ++ DataError e :: post) r) as (-> & _).
    by apply Ht.
  - destruct (handle_all_fold (pre ++ DataEvent "ERROR" object :: post) r) as (-> & _).
    by apply Ht.
Qed.

Lemma matched_matches r object : matched r object → matches r object = true.
Proof. intros [H1 H2]. by rewrite /matches !bool_decide_eq_true_2. Qed.

(** X14. An event of the expected type and of a type other than [ADDED],
    [MODIFIED], [DELETED] and [ERROR] (a [BOOKMARK], or a type that the
    handler does not know) leaves the store alone and moves the cursor to
    its resource version, if it has one. *)
Theorem X14_bookmark_moves_cursor_only r (type : string) object :
  matched r object →
  type ≠ "ERROR" → type ≠ "ADDED" → type ≠ "MODIFIED" → type ≠ "DELETED" →
  (Reflector.handle (E:=E) (DataEvent type object) r).1 = None
  ∧ Reflector.store (Reflector.handle (E:=E) (DataEvent type object) r).2
    = Reflector.store r
  ∧ Reflector.lastSyncResourceVersion (Reflector.handle (E:=E) (DataEvent type object) r).2
    = (if Reflector.truthy (KObject.metadata_resourceVersion object)
       then default EmptyString (KObject.metadata_resourceVersion object)
       else Reflector.lastSyncResourceVersion r).
Proof.
  intros Hm H1%String.eqb_neq H2%String.eqb_neq H3%String.eqb_neq H4%String.eqb_neq.
  destruct (handle_step (DataEvent type object : WatchData E) r) as (Herr & Hstore & Hrv & _).
  rewrite Herr Hstore Hrv /= H1 /= (matched_matches _ _ Hm) H2 H3 H4 /=.
  split_and!; [done|done|].
  destruct (Reflector.truthy _) eqn:Ht; [|done].
  by destruct (KObject.metadata_resourceVersion object).
Qed.

End HandlerMore.

Lemma X14_bookmark_moves_cursor_only_witness :
  let r := Reflector.create Sample.listWatcher {| Sample.recorded := [] |} in
  let r' := (Reflector.handle (E:=Sample.Failure)
               (DataEvent "BOOKMARK" (Sample.x "a" "77")) r).2 in
  Sample.recorded (Reflector.store r') = []
  ∧ Reflector.lastSyncResourceVersion r' = "77".
Proof.
  intros r r'.
  destruct (X14_bookmark_moves_cursor_only (E:=Sample.Failure) r "BOOKMARK"
              (Sample.x "a" "77")) as (_ & Hstore & Hrv); [done..|].
  by rewrite /r' Hstore Hrv.
Defined.

(** ** More of the Reflector: listAndWatch, stop and run *)

Section LoopMore.
Context {S E : Type} {sink : StoreSink.t S} {errors : ApiErrors.t E}.
Context {engine : JSNumber.Engine}.
Implicit Types (r : Reflector.t S) (w : Server E).

Lemma watch_phase_request_random w w' q :
  random w' = random w → watch_phase_request w q → watch_phase_request w' q.
Proof. intros H. destruct q; simpl; by rewrite ?H. Qed.

Lemma watchHandler_same_control (asyncIterable : WatchStream E) r :
  same_control r (Reflector.watchHandler asyncIterable r).2.
Proof. rewrite watchHandler_snd. apply handle_all_fold. Qed.

(** The watch loop: what it leaves alone, how it ends and what it asks. *)
Lemma watch_loop_spec script r w :
  same_control r (Reflector.watch_loop script r w).1.2
  ∧ lists (Reflector.watch_loop script r w).2 = lists w
  ∧ random (Reflector.watch_loop script r w).2 = random w
  ∧ ((Reflector.watch_loop script r w).1.1 = Returned
     ∨ (Reflector.watch_loop script r w).1.1 = Pending)
  ∧ ∃ extra,
      requests (Reflector.watch_loop script r w).2 = (requests w ++ extra)%list
      ∧ Forall (watch_phase_request w) extra.
Proof.
  revert r w. induction script as [|answer script IH]; intros r w.
  - simpl. destruct (Reflector.stopRequested r) eqn:Hstop; simpl.
    + split_and!; try done; [by left|]. exists []. by rewrite app_nil_r.
    + split_and!; try done; [by right|]. eexists. split; [done|].
      apply Forall_singleton. simpl. split; [done|]. by eexists.
  - cbn [Reflector.watch_loop].
    destruct (Reflector.stopRequested r) eqn:Hstop.
    { simpl. split_and!; try done; [by left|]. exists []. by rewrite app_nil_r. }
    rewrite /Reflector.Math_random.
    set (q1 := WatchRequest true _ _).
    assert (Hq1 : watch_phase_request w q1).
    { simpl. split; [done|]. by eexists. }
    set (w1 := Reflector.set_watches script (Reflector.log_request q1 _)).
    assert (Hw1 : lists w1 = lists w ∧ random w1 = random w
                  ∧ requests w1 = (requests w ++ [q1])%list) by done.
    destruct Hw1 as (Hl1 & Hr1 & Hq).
    set (res := match answer with
                | inl asyncIterable => Reflector.watchHandler asyncIterable r
                | inr err => (Some err, r)
                end).
    assert (Hc : same_control r res.2).
    { rewrite /res. destruct answer; [apply watchHandler_same_control|done]. }
    destruct res as [[err|] r1]; simpl in Hc.
    + destruct (ApiErrors.isConnectionRefused err).
      * rewrite /Reflector.Math_random. cbv beta iota zeta.
        set (w2 := Reflector.delay _ _).
        assert (Hw2 : ∃ q2, watch_phase_request w q2 ∧ lists w2 = lists w
                      ∧ random w2 = random w
                      ∧ requests w2 = (requests w ++ [q1; q2])%list).
        { eexists (Delay _). split_and!; [|done|done|].
          - simpl. eexists. by rewrite -Hr1.
          - rewrite /w2 /Reflector.delay /= -app_assoc. done. }
        destruct Hw2 as (q2 & Hq2' & Hl2 & Hr2 & Hq2).
        destruct (IH r1 w2) as (IHc & IHl & IHr & IHe & extra & IHq & IHf).
        split_and!.
        -- by eapply same_control_trans.
        -- by rewrite IHl.
        -- by rewrite IHr.
        -- done.
        -- exists (q1 :: q2 :: extra). split.
           ++ by rewrite IHq Hq2 -app_assoc.
           ++ repeat apply Forall_cons_2; [done|done|].
              eapply Forall_impl; [exact IHf|].
              intros q. by apply watch_phase_request_random.
      * simpl. split_and!; try done; [by left|].
        exists [q1]. split; [done|]. by apply Forall_singleton.
    + destruct (IH r1 w1) as (IHc & IHl & IHr & IHe & extra & IHq & IHf).
      split_and!.
      * by eapply same_control_trans.
      * by rewrite IHl.
      * by rewrite IHr.
      * done.
      * exists (q1 :: extra). split.
        -- by rewrite IHq Hq -app_assoc.
        -- apply Forall_cons_2; [done|].
           eapply Forall_impl; [exact IHf|].
           intros q. by apply watch_phase_request_random.
Qed.

Lemma draw_range (u : Q) : (0 <= Reflector.draw u)%Q ∧ (Reflector.draw u < 1)%Q.
Proof.
  rewrite /Reflector.draw.
  destruct (Qle_bool 0 u && JSNumber.Qlt_bool u 1) eqn:H; [|done].
  apply andb_prop in H as [H0 H1]. split.
  - by apply Qle_bool_iff.
  - by apply Qlt_bool_true.
Qed.

Lemma watch_phase_within_bounds w q :
  watch_phase_request w q → within_bounds q.
Proof.
  destruct q as [| a t rv | ms]; simpl; [done| |].
  - intros [-> [n ->]]. split; [done|].
    destruct (draw_range (random w n)) as [H0 H1].
    by apply (randomize_range _ 300).
  - intros [n ->]. destruct (draw_range (random w n)) as [H0 H1].
    by apply (randomize_range _ 1000).
Qed.

(** X15. The watch loop never lists and never throws: it ends by a return
    or waits for the next answer, every request it makes is a watch or a
    delay, and it leaves the list answers, the two flags of the list phase,
    the stop flag and the backoff manager as they are. An error of a watch,
    *expired* or not, sets no flag. *)
Theorem X15_watch_loop_never_lists script r w :
  same_control r (Reflector.watch_loop script r w).1.2
  ∧ lists (Reflector.watch_loop script r w).2 = lists w
  ∧ ((Reflector.watch_loop script r w).1.1 = Returned
     ∨ (Reflector.watch_loop script r w).1.1 = Pending)
  ∧ ∃ extra,
      requests (Reflector.watch_loop script r w).2 = (requests w ++ extra)%list
      ∧ Forall (λ q, is_list_request q = false) extra.
Proof.
  destruct (watch_loop_spec script r w) as (Hc & Hl & _ & He & extra & Hq & Hf).
  split_and!; try done. exists extra. split; [done|].
  eapply Forall_impl; [exact Hf|]. intros [] ?; done.
Qed.

(** X16. With draws in [0, 1), every watch that the watch loop opens allows
    bookmarks and times out after 300 to 600 seconds, and every delay after
    a refused connection lasts 1000 to 2000 milliseconds. *)
Theorem X16_watch_timeouts_and_delays script r w :
  (∀ n, (0 <= random w n)%Q ∧ (random w n < 1)%Q) →
  ∃ extra,
    requests (Reflector.watch_loop script r w).2 = (requests w ++ extra)%list
    ∧ Forall within_bounds extra.
Proof.
  intros _.
  destruct (watch_loop_spec script r w) as (_ & _ & _ & _ & extra & Hq & Hf).
  exists extra. split; [done|].
  eapply Forall_impl; [exact Hf|]. intros q. apply watch_phase_within_bounds.
Qed.

(** One call of [listAndWatch]. *)
Lemma listAndWatch_spec r w :
  (match StoreSink.setRefreshing with
   | None =>
       Reflector.listAndWatch r w
       = (Thrown (ApiErrors.TypeError "this.store.setRefreshing is not a function"), r, w)
   | Some _ =>
       (Reflector.listAndWatch r w).1.1 = Returned
       ∨ (Reflector.listAndWatch r w).1.1 = Pending
   end)
  ∧ Reflector.listWatcher (Reflector.listAndWatch r w).1.2 = Reflector.listWatcher r
  ∧ Reflector.stopRequested (Reflector.listAndWatch r w).1.2 = Reflector.stopRequested r
  ∧ Reflector.backoffManager (Reflector.listAndWatch r w).1.2 = Reflector.backoffManager r
  ∧ Reflector.paginatedResult (Reflector.listAndWatch r w).1.2
    = Reflector.paginatedResult r
      || match StoreSink.setRefreshing, lists w with
         | Some _, inl list :: _ =>
             String.eqb (Reflector.relistResourceVersion r) "0" && list_paginated list
         | _, _ => false
         end
  ∧ Reflector.isLastSyncResourceVersionUnavailable (Reflector.listAndWatch r w).1.2
    = match StoreSink.setRefreshing, lists w with
      | Some _, inl _ :: _ => false
      | Some _, inr err :: _ =>
          ApiErrors.isExpiredError err || ApiErrors.isTooLargeResourceVersionError err
          || Reflector.isLastSyncResourceVersionUnavailable r
      | _, _ => Reflector.isLastSyncResourceVersionUnavailable r
      end
  ∧ ∃ extra,
      requests (Reflector.listAndWatch r w).2
      = (requests w ++ list_requests_of r w ++ extra)%list
      ∧ Forall (watch_phase_request w) extra.
Proof.
  rewrite /Reflector.listAndWatch /list_requests_of.
  destruct StoreSink.setRefreshing as [setRefreshing|].
  2:{ split_and!; try done; [by rewrite orb_false_r|].
      exists []. by rewrite ?app_nil_r. }
  rewrite /Reflector.pager_list.
  destruct (lists w) as [|[list|err] rest] eqn:Hlists; simpl; rewrite Hlists.
  - split_and!; try done; [by right|by rewrite orb_false_r|].
    exists []. by rewrite ?app_nil_r.
  - rewrite /Reflector.list_succeeded.
    set (r1 := Reflector.with_lastSyncResourceVersion _ _).
    set (w1 := {| lists := rest |}).
    destruct (watch_loop_spec (watches w1) r1 w1)
      as ((Hlw & Hu & Hp & Hs & Hb) & _ & _ & He & extra & Hq & Hf).
    split_and!.
    + done.
    + by rewrite Hlw /r1; destruct (_ && _).
    + by rewrite Hs /r1; destruct (_ && _).
    + by rewrite Hb /r1; destruct (_ && _).
    + rewrite Hp /r1 /=. destruct (_ && _); simpl; [by rewrite orb_true_r|].
      by rewrite orb_false_r.
    + by rewrite Hu /r1.
    + exists extra. split; [by rewrite Hq /= -app_assoc|].
      eapply Forall_impl; [exact Hf|]. intros q. by apply watch_phase_request_random.
  - destruct (ApiErrors.isExpiredError err || ApiErrors.isTooLargeResourceVersionError err)
      eqn:Herr; simpl.
    + destruct rest as [|[list2|err2] rest2]; simpl;
        (split_and!; try done;
         [(by left) || (by right)|by rewrite orb_false_r|
          exists []; by rewrite -?app_assoc]).
    + split_and!; try done; [by left|by rewrite orb_false_r|].
      exists []. by rewrite ?app_nil_r.
Qed.

Lemma list_requests_of_length r w : (length (list_requests_of r w) <= 2)%nat.
Proof.
  rewrite /list_requests_of. destruct StoreSink.setRefreshing; simpl; [|lia].
  destruct (lists w) as [|[?|err] ?]; simpl; try lia.
  destruct (_ || _); simpl; lia.
Qed.

(** X17. One call of [listAndWatch] makes its list requests first and at
    most two of them: one at the resource version to relist at and, only
    after an *expired* or *too large* answer to it, one at the empty
    resource version, both with the same page size. All later requests are
    watches and delays. *)
Theorem X17_at_most_two_lists r w :
  (length (list_requests_of r w) <= 2)%nat
  ∧ ∃ extra,
      requests (Reflector.listAndWatch r w).2
      = (requests w ++ list_requests_of r w ++ extra)%list
      ∧ Forall (λ q, is_list_request q = false) extra.
Proof.
  split; [apply list_requests_of_length|].
  destruct (listAndWatch_spec r w) as (_ & _ & _ & _ & _ & _ & extra & Hq & Hf).
  exists extra. split; [done|].
  eapply Forall_impl; [exact Hf|]. intros [] ?; done.
Qed.

(** X18. The flags after one call of [listAndWatch]. [paginatedResult] is
    latched: it is set when the first list was made at resource version
    ["0"] and came back paginated, and it is never cleared.
    [isLastSyncResourceVersionUnavailable] is cleared by a first list that
    succeeds, set by a first list that fails with *expired* or *too large*,
    and left as it is otherwise. *)
Theorem X18_flags_after_listAndWatch r w :
  Reflector.paginatedResult (Reflector.listAndWatch r w).1.2
  = Reflector.paginatedResult r
    || match StoreSink.setRefreshing, lists w with
       | Some _, inl list :: _ =>
           String.eqb (Reflector.relistResourceVersion r) "0" && list_paginated list
       | _, _ => false
       end
  ∧ Reflector.isLastSyncResourceVersionUnavailable (Reflector.listAndWatch r w).1.2
    = match StoreSink.setRefreshing, lists w with
      | Some _, inl _ :: _ => false
      | Some _, inr err :: _ =>
          ApiErrors.isExpiredError err || ApiErrors.isTooLargeResourceVersionError err
          || Reflector.isLastSyncResourceVersionUnavailable r
      | _, _ => Reflector.isLastSyncResourceVersionUnavailable r
      end.
Proof.
  destruct (listAndWatch_spec r w) as (_ & _ & _ & _ & Hp & Hu & _). by split.
Qed.

(** X19. [listAndWatch] throws nothing but the [TypeError] of a store
    without [setRefreshing]: with such a store it throws before it asks
    anything, and with any other store every error of a list or of a watch
    (the error of a very short watch too) ends it by a return. *)
Theorem X19_listAndWatch_throws_only_TypeError r w :
  match StoreSink.setRefreshing with
  | None =>
      Reflector.listAndWatch r w
      = (Thrown (ApiErrors.TypeError "this.store.setRefreshing is not a function"), r, w)
  | Some _ =>
      (Reflector.listAndWatch r w).1.1 = Returned
      ∨ (Reflector.listAndWatch r w).1.1 = Pending
  end.
Proof. apply listAndWatch_spec. Qed.

(** X20. [stop()] sets the stop flag, calls [destroy] on the agent when
    there is one and cancels the idle timer; it leaves the store, the
    cursor, the two flags of the list phase and the other attributes of the
    ListWatcher alone. It has no guard: stopping twice calls [destroy]
    twice, and is stopping once in everything else. A stopped Reflector
    asks nothing more: [run] returns at once and the watch loop opens no
    further watch. *)
Theorem X20_stop r w (fuel : nat) script :
  Reflector.stopRequested (Reflector.stop r) = true
  ∧ Reflector.store (Reflector.stop r) = Reflector.store r
  ∧ Reflector.lastSyncResourceVersion (Reflector.stop r)
    = Reflector.lastSyncResourceVersion r
  ∧ Reflector.isLastSyncResourceVersionUnavailable (Reflector.stop r)
    = Reflector.isLastSyncResourceVersionUnavailable r
  ∧ Reflector.paginatedResult (Reflector.stop r) = Reflector.paginatedResult r
  ∧ agent (Reflector.listWatcher (Reflector.stop r))
    = Datatypes.S <$> agent (Reflector.listWatcher r)
  ∧ agent (Reflector.listWatcher (Reflector.stop (Reflector.stop r)))
    = (λ destroyed, Datatypes.S (Datatypes.S destroyed))
      <$> agent (Reflector.listWatcher r)
  ∧ (group (Reflector.listWatcher (Reflector.stop r)),
     version (Reflector.listWatcher (Reflector.stop r)),
     names (Reflector.listWatcher (Reflector.stop r)))
    = (group (Reflector.listWatcher r), version (Reflector.listWatcher r),
       names (Reflector.listWatcher r))
  ∧ BackoffManager.timeoutId (Reflector.backoffManager (Reflector.stop r)) = None
  ∧ Reflector.with_listWatcher (Reflector.listWatcher r)
      (Reflector.stop (Reflector.stop r))
    = Reflector.with_listWatcher (Reflector.listWatcher r) (Reflector.stop r)
  ∧ Reflector.run (Datatypes.S fuel) (Reflector.stop r) w = (Returned, Reflector.stop r, w)
  ∧ Reflector.watch_loop script (Reflector.stop r) w = (Returned, Reflector.stop r, w).
Proof.
  destruct r as [[? ? ? [?|]] ? ? ? ? ? ?];
    (split_and!; try done; by destruct script).
Qed.

End LoopMore.

Lemma X16_watch_timeouts_and_delays_witness :
  ∃ extra,
    requests (Reflector.watch_loop (watches Sample.connection_refused) Sample.reflector
                Sample.connection_refused).2
    = (requests Sample.connection_refused ++ extra)%list
    ∧ Forall within_bounds extra.
Proof.
  apply X16_watch_timeouts_and_delays.
  intros n. split; [apply Qle_refl|reflexivity].
Defined.

(** ** More of the Informer *)

Section InformerMore.
Context {E : Type} {errors : ApiErrors.t E} {engine : JSNumber.Engine}.
Implicit Types (i : Informer.Sink) (r : Reflector.t Informer.Sink) (w : Server E).

Lemma mutate_informer (m : Mutation) i :
  Informer.kStore (mutate m i) = Store.call (store_call m) (Informer.kStore i)
  ∧ Informer.emitted (mutate m i)
    = (Informer.emitted i ++ emissions (Informer.kStore i) [m])%list.
Proof. by destruct m. Qed.

Lemma mutations_informer (ms : list Mutation) i :
  Informer.kStore (foldl (λ i m, mutate m i) i ms)
  = Store.calls (store_call <$> ms) (Informer.kStore i)
  ∧ Informer.emitted (foldl (λ i m, mutate m i) i ms)
    = (Informer.emitted i ++ emissions (Informer.kStore i) ms)%list.
Proof.
  revert i. induction ms as [|m ms IH]; intros i.
  - by rewrite /= app_nil_r.
  - destruct (mutate_informer m i) as [Hs He].
    destruct (IH (mutate m i)) as [IHs IHe].
    cbn [foldl fmap list_fmap emissions]. rewrite IHs IHe Hs He /= -app_assoc. done.
Qed.

(** X21. The events of the Informer mirror the changes of its store: after
    any sequence of callbacks the store is the store before it with the
    same calls made, and exactly one event was emitted for each callback,
    in order, with the name and the argument of the callback, to listeners
    that see the store with that change made and none of the later ones. *)
Theorem X21_events_mirror_mutations (ms : list Mutation) i :
  Informer.kStore (foldl (λ i m, mutate m i) i ms)
  = Store.calls (store_call <$> ms) (Informer.kStore i)
  ∧ Informer.emitted (foldl (λ i m, mutate m i) i ms)
    = (Informer.emitted i ++ emissions (Informer.kStore i) ms)%list
  ∧ length (emissions (Informer.kStore i) ms) = length ms
  ∧ (λ e, (Informer.event e, Informer.args e)) <$> emissions (Informer.kStore i) ms
    = signature <$> ms.
Proof.
  destruct (mutations_informer ms i) as [Hs He]. split_and!; [done|done| |].
  - clear Hs He. generalize (Informer.kStore i).
    induction ms as [|m ms IH]; intros s; [done|]. by rewrite /= IH.
  - clear Hs He. generalize (Informer.kStore i).
    induction ms as [|m ms IH]; intros s; [done|].
    cbn [emissions fmap list_fmap]. rewrite IH. by destruct m.
Qed.

(** X22. The subscribers of an Informer get the watch events in the order of
    the stream: the watch handler emits one [ADD], [UPDATE] or [DELETE]
    event for each [ADDED], [MODIFIED] or [DELETED] event of the expected
    type that comes before the first datum thrown, each after its change of
    the store, and nothing for a bookmark, for an event of another type or
    for what follows an error. *)
Theorem X22_informer_emits_in_stream_order (asyncIterable : WatchStream E) r :
  let changes := omap (effect r) (handled (events asyncIterable)) in
  Informer.kStore (Reflector.store (Reflector.watchHandler asyncIterable r).2)
  = Store.calls (store_call <$> changes) (Informer.kStore (Reflector.store r))
  ∧ Informer.emitted (Reflector.store (Reflector.watchHandler asyncIterable r).2)
    = (Informer.emitted (Reflector.store r)
       ++ emissions (Informer.kStore (Reflector.store r)) changes)%list.
Proof.
  intros changes.
  destruct (handle_all_fold (events asyncIterable) r) as (_ & Hstore & _ & _).
  rewrite watchHandler_snd Hstore. apply mutations_informer.
Qed.

(** A duration of the manager that [new BackoffManager()] makes, for a draw
    in [0, 1): never [NaN], and at most 15000. *)
Lemma default_duration_le (a : nat) (u : Q) :
  (0 <= u)%Q → (u < 1)%Q →
  JSNumber.le
    (duration_of (JSNumber.of_Z 800) (JSNumber.of_Z 15000) (JSNumber.Finite (3 # 2))
       BackoffManager.one_tenth a u)
    (JSNumber.of_Z 15000) = true.
Proof.
  intros Hu0 Hu1. rewrite /duration_of.
  destruct (JSNumber.gt _ _); [by vm_compute|].
  set (D := JSNumber.mul _ (JSNumber.Math_pow _ a)).
  assert (HD : D ≠ JSNumber.NaN).
  { apply mul_pos_number; [done|]. destruct a as [|a]; [done|].
    apply JSNumber.engine_pow_number. }
  change (JSNumber.truthy BackoffManager.one_tenth) with true. cbv iota.
  assert (Hx : ∃ x, JSNumber.add (JSNumber.of_Z 1)
                      (JSNumber.mul BackoffManager.one_tenth
                         (JSNumber.sub (JSNumber.mul (JSNumber.of_Z 2) (JSNumber.Finite u))
                            (JSNumber.of_Z 1)))
                    = JSNumber.Finite x ∧ (0 < x)%Q).
  { rewrite /JSNumber.mul /JSNumber.sub /JSNumber.add /JSNumber.of_Z
            /BackoffManager.one_tenth.
    change (inject_Z 2) with 2%Q. change (inject_Z 1) with 1%Q.
    destruct (fl_between 0 2 (2 * u) 0 2) as (y1 & -> & H1 & H1');
      [lra..|by vm_compute|by vm_compute|].
    destruct (fl_between (-1) 1 (y1 - 1) (-1) 1) as (y2 & -> & H2 & H2');
      [lra..|by vm_compute|by vm_compute|].
    set (j := (3602879701896397 # 36028797018963968)%Q).
    assert (Hj : (0 < j)%Q ∧ (j < 1 # 2)%Q) by done.
    destruct (fl_between (- (1 # 2)) (1 # 2) (j * y2) (- (1 # 2)) (1 # 2))
      as (y3 & -> & H3 & H3'); [nra..|by vm_compute|by vm_compute|].
    destruct (fl_between (1 # 2) 2 (1 + y3) (1 # 2) 2)
      as (x & -> & H4 & H4'); [lra..|by vm_compute|by vm_compute|].
    exists x. split; [done|lra]. }
  destruct Hx as (x & -> & Hx).
  destruct (Math_min_le
              (JSNumber.Math_floor (JSNumber.Math_floor (JSNumber.mul (JSNumber.Finite x) D)))
              (JSNumber.of_Z 15000)) as [H|H]; [|done].
  exfalso. revert H. apply Math_min_number; [|done].
  do 2 apply Math_floor_number. by apply mul_pos_number.
Qed.

Lemma backoff_duration_spec {S : Type} {sink : StoreSink.t S} (r : Reflector.t S) w :
  default_fields (Reflector.backoffManager r) →
  JSNumber.le (Reflector.backoff_duration r w).1.1 (JSNumber.of_Z 15000) = true
  ∧ Reflector.store (Reflector.backoff_duration r w).1.2 = Reflector.store r
  ∧ Reflector.lastSyncResourceVersion (Reflector.backoff_duration r w).1.2
    = Reflector.lastSyncResourceVersion r
  ∧ Reflector.stopRequested (Reflector.backoff_duration r w).1.2
    = Reflector.stopRequested r
  ∧ default_fields (Reflector.backoffManager (Reflector.backoff_duration r w).1.2)
  ∧ lists (Reflector.backoff_duration r w).2 = lists w
  ∧ watches (Reflector.backoff_duration r w).2 = watches w
  ∧ requests (Reflector.backoff_duration r w).2 = requests w.
Proof.
  intros (Hmin & Hmax & Hf & Hj). rewrite /Reflector.backoff_duration.
  set (u := if _ && _ then _ else _).
  assert (Hw : lists u.2 = lists w ∧ watches u.2 = watches w ∧ requests u.2 = requests w
               ∧ (0 <= u.1)%Q ∧ (u.1 < 1)%Q).
  { rewrite /u. destruct (_ && _); [|done].
    split_and!; try done; apply draw_range. }
  destruct u as [u w1]. simpl in Hw. destruct Hw as (Hl & Hw & Hq & Hu0 & Hu1).
  pose proof (duration_fst u (Reflector.backoffManager r)) as Hd.
  pose proof (duration_snd u (Reflector.backoffManager r)) as Hb.
  destruct (BackoffManager.duration u (Reflector.backoffManager r)) as [d b].
  simpl in *. subst d b. rewrite Hmin Hmax Hf Hj.
  split_and!; try done. by apply default_duration_le.
Qed.

Lemma run_informer_spec (fuel : nat) r w :
  Reflector.stopRequested r = false →
  default_fields (Reflector.backoffManager r) →
  (Reflector.run fuel r w).1.1 = Pending
  ∧ Reflector.store (Reflector.run fuel r w).1.2 = Reflector.store r
  ∧ Reflector.lastSyncResourceVersion (Reflector.run fuel r w).1.2
    = Reflector.lastSyncResourceVersion r
  ∧ lists (Reflector.run fuel r w).2 = lists w
  ∧ watches (Reflector.run fuel r w).2 = watches w
  ∧ ∃ delays,
      requests (Reflector.run fuel r w).2 = (requests w ++ (Delay <$> delays))%list
      ∧ length delays = fuel
      ∧ Forall (λ d, JSNumber.le d (JSNumber.of_Z 15000) = true) delays.
Proof.
  revert r w. induction fuel as [|fuel IH]; intros r w Hstop Hfields.
  { split_and!; try done. exists []. by rewrite app_nil_r. }
  cbn [Reflector.run]. rewrite Hstop listAndWatch_informer Hstop.
  destruct (backoff_duration_spec r w Hfields)
    as (Hd & Hs & Hrv & Hst & Hf' & Hl & Hw & Hq).
  destruct (Reflector.backoff_duration r w) as [[d r1] w1]. simpl in *.
  destruct (IH r1 (Reflector.delay d w1))
    as (IH1 & IH2 & IH3 & IH4 & IH5 & ds & IH6 & IH7 & IH8); [by rewrite Hst|done|].
  split_and!.
  - done.
  - by rewrite IH2.
  - by rewrite IH3.
  - by rewrite IH4.
  - by rewrite IH5.
  - exists (d :: ds). split_and!.
    + by rewrite IH6 /= Hq -app_assoc.
    + simpl. by rewrite IH7.
    + by apply Forall_cons_2.
Qed.

(** X23. The Reflector of an Informer never lists. The object of callbacks
    that the Informer hands to it has no [setRefreshing], so every round of
    [run] throws the [TypeError] before any request and is followed by a
    backoff delay of at most 15000 milliseconds: after any number of rounds
    the Reflector is still running, the requests made are that many delays,
    the answers of the server are untouched, the Store is as it was and
    [hasSynced] is pending. *)
Theorem X23_informer_never_lists (listWatcher : ListWatcher) (fuel : nat) w :
  let i := Informer.create listWatcher in
  let result := Reflector.run fuel (Informer.kReflector i) w in
  result.1.1 = Pending
  ∧ Reflector.store result.1.2 = Reflector.store (Informer.kReflector i)
  ∧ Store.hasSynced (Informer.kStore (Reflector.store result.1.2)) = None
  ∧ Informer.emitted (Reflector.store result.1.2) = []
  ∧ lists result.2 = lists w
  ∧ watches result.2 = watches w
  ∧ ∃ delays,
      requests result.2 = (requests w ++ (Delay <$> delays))%list
      ∧ length delays = fuel
      ∧ Forall (λ d, JSNumber.le d (JSNumber.of_Z 15000) = true) delays.
Proof.
  intros i result.
  destruct (run_informer_spec fuel (Informer.kReflector i) w)
    as (H1 & H2 & _ & H4 & H5 & ds & H6 & H7 & H8); [done|done|].
  split_and!; [done|done|by rewrite /result H2|by rewrite /result H2|done|done|].
  by exists ds.
Qed.

(** X24. After [run(signal)] the handle aborts the controller of [run], and
    invoking it twice is invoking it once. Aborting the signal of the
    caller aborts the controller too, unless that signal was aborted
    already when [run] was called: the listener that [run] adds to an
    aborted signal is never called. *)
Theorem X24_abort_edges (i : Informer.t) (s : Informer.AbortSignal) :
  let x := (Informer.run (Some s) i).1 in
  let cancel := (Informer.run (Some s) i).2 in
  Informer.aborted (Informer.ac x) = false
  ∧ Informer.aborted (Informer.ac (cancel x)) = true
  ∧ cancel (cancel x) = cancel x
  ∧ Informer.aborted (Informer.ac (Informer.signal_abort x))
    = negb (Informer.aborted s)
  ∧ Informer.signal_abort (Informer.signal_abort x) = Informer.signal_abort x.
Proof.
  intros x cancel.
  assert (Hcall : ∀ l y, Informer.signal (Informer.call l y) = Informer.signal y).
  { intros l y. destruct l; [|done].
    rewrite /= /Informer.ac_abort. by destruct (Informer.aborted (Informer.ac y)). }
  assert (Hfold' : ∀ ls y,
    Informer.signal (foldl (λ x l, Informer.call l x) y ls) = Informer.signal y).
  { induction ls as [|l ls IH]; intros y; [done|]. simpl. by rewrite IH Hcall. }
  split_and!; try done.
  - rewrite /Informer.signal_abort /x /=. destruct (Informer.aborted s) eqn:Hs. 1: reflexivity.
    rewrite foldl_app /=.
    set (y := foldl _ _ _).
    rewrite /Informer.ac_abort. by destruct (Informer.aborted (Informer.ac y)) eqn:Hy.
  - rewrite {2 3}/Informer.signal_abort /x /=.
    destruct (Informer.aborted s) eqn:Hs.
    + done.
    + set (y := foldl _ _ _).
      pose proof (Hfold' (Informer.listeners s ++ [Informer.abort_ac])%list
                  {| Informer.informer := i;
                     Informer.ac := {| Informer.aborted := false; Informer.listeners := [] |};
                     Informer.signal := Some {| Informer.aborted := true;
                                                Informer.listeners := [] |} |})
        as Hsig.
      fold y in Hsig. by rewrite /Informer.signal_abort Hsig.
Qed.

End InformerMore.

(** ** Search parameters, ListWatcher and the readable verbs *)

Section SearchParamsFacts.

Lemma get_delete_ne k name p :
  k ≠ name → URLSearchParams.get name (URLSearchParams.delete k p) = URLSearchParams.get name p.
Proof.
  intros Hne. induction p as [|[k' v'] p IH]; [done|]. simpl.
  destruct (String.eqb_spec k' k) as [->|Hk].
  - destruct (String.eqb_spec k name); [done|]. exact IH.
  - simpl. by rewrite IH.
Qed.

Lemma get_set_eq k v p : URLSearchParams.get k (URLSearchParams.set k v p) = Some v.
Proof.
  induction p as [|[k' v'] p IH]; simpl.
  - by rewrite String.eqb_refl.
  - destruct (String.eqb_spec k' k) as [->|Hk]; simpl.
    + by rewrite String.eqb_refl.
    + destruct (String.eqb_spec k' k); [done|]. exact IH.
Qed.

Lemma get_set_ne k name v p :
  k ≠ name → URLSearchParams.get name (URLSearchParams.set k v p) = URLSearchParams.get name p.
Proof.
  intros Hne. induction p as [|[k' v'] p IH]; simpl.
  - by destruct (String.eqb_spec k name).
  - destruct (String.eqb_spec k' k) as [->|Hk]; simpl.
    + destruct (String.eqb_spec k name); [done|]. by apply get_delete_ne.
    + by rewrite IH.
Qed.

Lemma occurrences_delete_eq k p : occurrences k (URLSearchParams.delete k p) = 0%nat.
Proof.
  induction p as [|[k' v'] p IH]; [done|]. simpl.
  destruct (String.eqb_spec k' k) as [->|Hk]; [done|]. simpl.
  by destruct (String.eqb_spec k' k).
Qed.

Lemma occurrences_delete_ne k name p :
  k ≠ name → occurrences name (URLSearchParams.delete k p) = occurrences name p.
Proof.
  intros Hne. induction p as [|[k' v'] p IH]; [done|]. simpl.
  destruct (String.eqb_spec k' k) as [->|Hk].
  - by destruct (String.eqb_spec k name).
  - simpl. by rewrite IH.
Qed.

Lemma occurrences_set_eq k v p : occurrences k (URLSearchParams.set k v p) = 1%nat.
Proof.
  induction p as [|[k' v'] p IH]; simpl.
  - by rewrite String.eqb_refl.
  - destruct (String.eqb_spec k' k) as [->|Hk]; simpl.
    + by rewrite String.eqb_refl occurrences_delete_eq.
    + destruct (String.eqb_spec k' k); [done|]. exact IH.
Qed.

Lemma occurrences_set_ne k name v p :
  k ≠ name → occurrences name (URLSearchParams.set k v p) = occurrences name p.
Proof.
  intros Hne. induction p as [|[k' v'] p IH]; simpl.
  - by destruct (String.eqb_spec k name).
  - destruct (String.eqb_spec k' k) as [->|Hk]; simpl.
    + destruct (String.eqb_spec k name); [done|]. by rewrite occurrences_delete_ne.
    + by rewrite IH.
Qed.

Lemma get_set_all name query p :
  URLSearchParams.get name (ListWatch.set_all query p)
  = match last_value name query with
    | Some v => Some (JSObject.to_string v)
    | None => URLSearchParams.get name p
    end.
Proof.
  revert p. induction query as [|[k v] query IH]; intros p; [done|]. simpl.
  rewrite IH. destruct (last_value name query); [done|].
  destruct (String.eqb_spec k name) as [->|Hk].
  - by rewrite get_set_eq.
  - by rewrite get_set_ne.
Qed.

Lemma occurrences_set_all name query p :
  occurrences name (ListWatch.set_all query p)
  = match last_value name query with
    | Some _ => 1%nat
    | None => occurrences name p
    end.
Proof.
  revert p. induction query as [|[k v] query IH]; intros p; [done|]. simpl.
  rewrite IH. destruct (last_value name query); [done|].
  destruct (String.eqb_spec k name) as [->|Hk].
  - by rewrite occurrences_set_eq.
  - by rewrite occurrences_set_ne.
Qed.

Lemma last_value_absent name (query : JSObject.t) :
  name ∉ query.*1 → last_value name query = None.
Proof.
  induction query as [|[k v] query IH]; [done|]. simpl.
  intros Hn. apply not_elem_of_cons in Hn as [Hne Hn].
  rewrite IH //. destruct (String.eqb_spec k name); [|done]. by subst.
Qed.

Lemma last_value_assign_eq key v (query : JSObject.t) :
  NoDup query.*1 → last_value key (JSObject.assign key v query) = Some v.
Proof.
  induction query as [|[k w] query IH]; simpl.
  - by rewrite String.eqb_refl.
  - intros Hnd. apply NoDup_cons in Hnd as [Hk Hnd].
    destruct (String.eqb_spec k key) as [->|Hne]; simpl.
    + by rewrite last_value_absent // String.eqb_refl.
    + by rewrite IH.
Qed.

Lemma last_value_assign_ne key name v (query : JSObject.t) :
  key ≠ name → last_value name (JSObject.assign key v query) = last_value name query.
Proof.
  intros Hne. induction query as [|[k w] query IH]; simpl.
  - by destruct (String.eqb_spec key name).
  - destruct (String.eqb_spec k key) as [->|Hk]; simpl.
    + by destruct (String.eqb_spec key name).
    + by rewrite IH.
Qed.

Lemma isWatch_merge query l :
  NoDup query.*1 →
  Resources.isWatch
    (ListWatch.mergeSearchParams (JSObject.assign "watch" (JSObject.JBoolean true) query) l)
  = true.
Proof.
  intros Hnd. rewrite /Resources.isWatch /ListWatch.mergeSearchParams get_set_all.
  by rewrite last_value_assign_eq.
Qed.

End SearchParamsFacts.

(** X25. [mergeSearchParams(query)] gives each name of the query the value
    of the query, as a string and in one pair only, whatever the
    ListWatcher held under that name; the other names keep their first
    value and all their pairs. *)
Theorem X25_mergeSearchParams (name : string) (query : JSObject.t) (l : ListWatch.t) :
  URLSearchParams.get name (ListWatch.mergeSearchParams query l)
  = match last_value name query with
    | Some v => Some (JSObject.to_string v)
    | None => URLSearchParams.get name (ListWatch.searchParams l)
    end
  ∧ occurrences name (ListWatch.mergeSearchParams query l)
    = match last_value name query with
      | Some _ => 1%nat
      | None => occurrences name (ListWatch.searchParams l)
      end.
Proof.
  split.
  - apply get_set_all.
  - apply occurrences_set_all.
Qed.

(** X26. [watch(query)] of a ListWatcher whose list function is the [list]
    verb of a resource is always a stream: a GET on the url of the
    collection whose parameter [watch] is [true], once, whatever the query
    and the ListWatcher say about [watch]. Its other parameters are those
    of [list(query)]. *)
Theorem X26_watch_is_a_stream (url name : string) (l : ListWatch.t) (query : JSObject.t) :
  NoDup query.*1 →
  let o := ListWatch.watch query l in
  let sp := ListWatch.options_searchParams o in
  Resources.list url (Resources.of_listWatcher o)
  = Resources.http_stream url "get" sp (ListWatch.options_signal o)
  ∧ URLSearchParams.get name sp
    = (if String.eqb name "watch" then Some "true"
       else URLSearchParams.get name
              (ListWatch.options_searchParams (ListWatch.list query l)))
  ∧ occurrences "watch" sp = 1%nat.
Proof.
  intros Hnd o sp. split_and!.
  - rewrite /Resources.list /=. by rewrite isWatch_merge.
  - rewrite /sp /= /ListWatch.mergeSearchParams !get_set_all.
    destruct (String.eqb_spec name "watch") as [->|Hne].
    + by rewrite last_value_assign_eq.
    + by rewrite last_value_assign_ne.
  - rewrite /sp /= /ListWatch.mergeSearchParams occurrences_set_all.
    by rewrite last_value_assign_eq.
Qed.

Lemma X26_watch_is_a_stream_witness :
  let l := ListWatch.new Sample.listWatcher
             [("watch", JSObject.JBoolean false); ("limit", JSObject.JNumber 5)] in
  let query := [("watch", JSObject.JString "no")] in
  Resources.list "shoots" (Resources.of_listWatcher (ListWatch.watch query l))
  = Resources.http_stream "shoots" "get" [("watch", "true"); ("limit", "5")] None.
Proof.
  intros l query.
  assert (Hnd : NoDup query.*1) by (apply NoDup_singleton).
  exact (proj1 (X26_watch_is_a_stream "shoots" "watch" l query Hnd)).
Defined.

(** X27. The signal of a ListWatcher is set once: [setAbortSignal] on a new
    ListWatcher succeeds, and after it a call with another value throws
    while a call with the same value changes nothing. [watch] hands the
    signal to the list function only when it is an [AbortSignal], [list]
    never does, and the search parameters do not depend on the signal. *)
Theorem X27_signal_is_set_once (attributes : ListWatcher) (query0 query : JSObject.t)
    (v w : ListWatch.signal_value) :
  ∃ l, ListWatch.setAbortSignal v (ListWatch.new attributes query0) = Some l
    ∧ ListWatch.setAbortSignal w l = (if ListWatch.same_value w v then Some l else None)
    ∧ ListWatch.options_signal (ListWatch.watch query l)
      = match v with
        | ListWatch.an_AbortSignal _ => Some v
        | ListWatch.another_value _ => None
        end
    ∧ ListWatch.options_signal (ListWatch.watch query (ListWatch.new attributes query0)) = None
    ∧ ListWatch.options_signal (ListWatch.list query l) = None
    ∧ ListWatch.options_searchParams (ListWatch.watch query l)
      = ListWatch.options_searchParams (ListWatch.watch query (ListWatch.new attributes query0)).
Proof.
  eexists. split; [reflexivity|]. split_and!; try done.
  by destruct v.
Qed.

(** X28. The watch that the Reflector opens through a ListWatcher carries
    [allowWatchBookmarks=true], the timeout, the resource version and
    [watch=true], whatever the ListWatcher holds under these names; every
    other parameter is the one of the ListWatcher. *)
Theorem X28_reflector_watch_query (name : string) (l : ListWatch.t)
    (timeoutSeconds : Z) (resourceVersion : string) :
  let o := ListWatch.watch (watch_options timeoutSeconds resourceVersion) l in
  URLSearchParams.get name (ListWatch.options_searchParams o)
  = if String.eqb name "allowWatchBookmarks" then Some "true"
    else if String.eqb name "timeoutSeconds" then Some (pretty timeoutSeconds)
    else if String.eqb name "resourceVersion" then Some resourceVersion
    else if String.eqb name "watch" then Some "true"
    else URLSearchParams.get name (ListWatch.searchParams l).
Proof.
  intros o. rewrite /o /ListWatch.watch /ListWatch.mergeSearchParams.
  cbn [ListWatch.options_searchParams]. rewrite get_set_all.
  change (JSObject.assign "watch" (JSObject.JBoolean true)
            (watch_options timeoutSeconds resourceVersion))
    with (watch_options timeoutSeconds resourceVersion
          ++ [("watch", JSObject.JBoolean true)])%list.
  cbn -[String.eqb pretty].
  rewrite !(String.eqb_sym name).
  destruct (String.eqb_spec "allowWatchBookmarks" name) as [<-|?]; [done|].
  destruct (String.eqb_spec "timeoutSeconds" name) as [<-|?]; [done|].
  destruct (String.eqb_spec "resourceVersion" name) as [<-|?]; [done|].
  by destruct (String.eqb_spec "watch" name) as [<-|?].
Qed.

Section FieldSelector.

Lemma isWatch_addFieldSelector key value p :
  Resources.isWatch (Resources.addFieldSelector key value p) = Resources.isWatch p.
Proof.
  rewrite /Resources.isWatch /Resources.addFieldSelector. by rewrite get_set_ne.
Qed.

Lemma append_nil_r (s : string) : s +:+ EmptyString = s.
Proof. induction s as [|c s IH]; [done|]. exact (f_equal (String c) IH). Qed.

End FieldSelector.

(** X29. [get(name, options)] of a readable resource. A name that is no
    string or is empty throws. With [watch=true] among the parameters it is
    the [list] verb with one more field selector: a stream on the url of the
    collection, with [signal], whose [fieldSelector] is [metadata.name=name]
    followed by the field selector that was given, if any, in one pair, and
    whose other parameters are as given. Otherwise it is a request on the
    url of the object, without [signal]. *)
Theorem X29_get_by_name (url_of_name url other : string) (name : option string)
    (a : Resources.arguments) :
  let sp := Resources.normalizeSearchParams (Resources.arg_searchParams a)
              (Resources.arg_options a) in
  match Resources.get url_of_name url name a with
  | None => name = None ∨ name = Some EmptyString
  | Some c =>
      ∃ n, name = Some n ∧ n ≠ EmptyString
        ∧ if Resources.isWatch sp then
            let sp' := Resources.addFieldSelector "metadata.name" n sp in
            c = Resources.list url
                  {| Resources.arg_searchParams := Some sp';
                     Resources.arg_signal := Resources.arg_signal a;
                     Resources.arg_options := [] |}
            ∧ c = Resources.http_stream url "get" sp' (Resources.arg_signal a)
            ∧ URLSearchParams.get "fieldSelector" sp'
              = Some ("metadata.name=" ++ n ++
                      match URLSearchParams.get "fieldSelector" sp with
                      | Some old => "," ++ old
                      | None => EmptyString
                      end)
            ∧ occurrences "fieldSelector" sp' = 1%nat
            ∧ URLSearchParams.get other sp'
              = (if String.eqb other "fieldSelector"
                 then URLSearchParams.get "fieldSelector" sp'
                 else URLSearchParams.get other sp)
          else
            c = Resources.request url_of_name "get" sp
  end.
Proof.
  intros sp. rewrite /Resources.get.
  destruct name as [n|]; simpl; [|by left].
  destruct (String.eqb_spec n EmptyString) as [->|Hn]; simpl; [by right|].
  fold sp. destruct (Resources.isWatch sp) eqn:Hw.
  - exists n. split; [done|]. split; [done|]. split_and!.
    + rewrite /Resources.list /=. by rewrite isWatch_addFieldSelector Hw.
    + done.
    + rewrite /Resources.addFieldSelector get_set_eq.
      destruct (URLSearchParams.get "fieldSelector" sp) as [old|]; [done|].
      by rewrite append_nil_r.
    + by rewrite /Resources.addFieldSelector occurrences_set_eq.
    + destruct (String.eqb_spec other "fieldSelector") as [->|Hne]; [done|].
      rewrite /Resources.addFieldSelector get_set_ne //.
  - by exists n.
Qed.

(** ** The lines of a response *)

Section LineFacts.
Context {V : Type} (JSON_parse : list byte → option V).
Local Open Scope list_scope.

Lemma lines_of_indexOf data :
  match Client.indexOf Client.EOL data with
  | None => lines_of data = ([], data)
  | Some index =>
      lines_of data
      = (take index data :: (lines_of (drop (Datatypes.S index) data)).1,
         (lines_of (drop (Datatypes.S index) data)).2)
      ∧ (index < length data)%nat
  end.
Proof.
  induction data as [|c data IH]; [done|]. simpl.
  destruct (Byte.eqb c Client.EOL) eqn:Hc.
  - simpl. rewrite drop_0. split; [done|lia].
  - destruct (Client.indexOf Client.EOL data) as [index|]; simpl.
    + destruct IH as [-> Hlt]. split; [done|lia].
    + by rewrite IH.
Qed.

Lemma drain_lines (transform : list byte → Client.yielded (V:=V)) (fuel : nat) data :
  (length data <= fuel)%nat →
  Client.drain fuel transform data
  = (transform <$> (lines_of data).1, (lines_of data).2).
Proof.
  revert data. induction fuel as [|fuel IH]; intros data Hlen.
  - destruct data; [done|]. simpl in Hlen. lia.
  - simpl. pose proof (lines_of_indexOf data) as H.
    destruct (Client.indexOf Client.EOL data) as [index|].
    + destruct H as [-> Hlt]. rewrite IH; [|done].
      rewrite length_drop. lia.
    + by rewrite H.
Qed.

Lemma lines_of_app a b :
  lines_of (a ++ b)
  = ((lines_of a).1 ++ (lines_of ((lines_of a).2 ++ b)).1,
     (lines_of ((lines_of a).2 ++ b)).2).
Proof.
  induction a as [|c a IH]; simpl.
  - by destruct (lines_of b).
  - rewrite IH. destruct (Byte.eqb c Client.EOL) eqn:Hc; [done|].
    destruct (lines_of a).1 as [|l ls]; simpl; [|done].
    rewrite Hc. by destruct (lines_of ((lines_of a).2 ++ b)).1.
Qed.

Lemma lines_of_rest data : lines_of (lines_of data).2 = ([], (lines_of data).2).
Proof.
  induction data as [|c data IH]; [done|]. simpl.
  destruct (Byte.eqb c Client.EOL) eqn:Hc; [done|].
  destruct (lines_of data).1 as [|l ls]; simpl; [|done].
  by rewrite Hc IH.
Qed.

Lemma iterate_lines (transform : list byte → Client.yielded (V:=V)) stream data :
  lines_of data = ([], data) →
  Client.iterate transform data stream
  = ((transform <$> (lines_of (data ++ concat stream)).1)
     ++ match (lines_of (data ++ concat stream)).2 with
        | [] => []
        | c :: rest => [transform (c :: rest)]
        end)%list.
Proof.
  revert data. induction stream as [|chunk stream IH]; intros data Hdata.
  - simpl. rewrite app_nil_r Hdata /=. by destruct data.
  - cbn [Client.iterate concat]. rewrite drain_lines; [done|].
    rewrite IH; [apply lines_of_rest|].
    rewrite (assoc_L (++) data chunk) (lines_of_app (data ++ chunk)) /=.
    by rewrite fmap_app assoc_L.
Qed.

Lemma lines_of_join data :
  (concat ((λ l, l ++ [Client.EOL]) <$> (lines_of data).1) ++ (lines_of data).2)%list
  = data.
Proof.
  induction data as [|c data IH]; [done|]. simpl.
  destruct (Byte.eqb c Client.EOL) eqn:Hc; simpl.
  - apply byte_dec_bl in Hc as ->. by rewrite IH.
  - destruct (lines_of data).1 as [|l ls]; simpl in *; by rewrite IH.
Qed.

Lemma lines_of_no_EOL data :
  Forall (λ l, Client.EOL ∉ l) (lines_of data).1 ∧ Client.EOL ∉ (lines_of data).2.
Proof.
  induction data as [|c data [IH1 IH2]]; simpl.
  - split; [constructor|]. apply not_elem_of_nil.
  - destruct (Byte.eqb c Client.EOL) eqn:Hc; simpl.
    + split; [|done]. constructor; [apply not_elem_of_nil|done].
    + apply eqb_false in Hc.
      destruct (lines_of data).1 as [|l ls]; simpl.
      * split; [constructor|]. apply not_elem_of_cons. by split.
      * apply Forall_cons in IH1 as [Hl Hls]. split; [|done].
        constructor; [|done]. apply not_elem_of_cons. by split.
Qed.

Lemma last_join (ls : list (list byte)) :
  last (concat ((λ l, l ++ [Client.EOL]) <$> ls))
  = match ls with [] => None | _ :: _ => Some Client.EOL end.
Proof.
  induction ls as [|l ls IH]; [done|]. simpl.
  rewrite last_app IH. destruct ls; [|done]. by rewrite last_snoc.
Qed.

End LineFacts.

(** X30. The lines that the iterator of a response yields depend on the
    bytes of the stream only, not on how they come in chunks. It yields the
    transform of each line, in order: no line holds an end-of-line byte,
    and the lines, each with an end-of-line byte after it, make up the
    bytes of the stream, with one more end-of-line byte when the stream
    does not end with one. An empty line between two end-of-line bytes is
    yielded, and bytes after the last end-of-line byte are yielded as a
    line when there are some. *)
Theorem X30_lines_of_a_stream {V : Type} (JSON_parse : list byte → option V)
    (type : Client.response_type) (stream : list (list byte)) :
  Client.asyncIterator JSON_parse type stream
  = Client.asyncIterator JSON_parse type [concat stream]
  ∧ ∃ lines : list (list byte),
      (∀ type', Client.asyncIterator JSON_parse type' stream
                = Client.transformFactory JSON_parse type' <$> lines)
      ∧ Forall (λ l, Client.EOL ∉ l) lines
      ∧ concat ((λ l, (l ++ [Client.EOL])%list) <$> lines)
        = (concat stream ++ missing_EOL (concat stream))%list.
Proof.
  split.
  - rewrite /Client.asyncIterator !iterate_lines //=. by rewrite app_nil_r.
  - pose proof (lines_of_no_EOL (concat stream)) as [Hlines Hrest].
    pose proof (lines_of_join (concat stream)) as Hjoin.
    destruct (lines_of (concat stream)).2 as [|c rest] eqn:Hr.
    + exists (lines_of (concat stream)).1. split_and!.
      * intros type'. rewrite /Client.asyncIterator iterate_lines //=.
        by rewrite Hr app_nil_r.
      * done.
      * rewrite app_nil_r in Hjoin. rewrite /missing_EOL -{2 3}Hjoin last_join.
        destruct (lines_of (concat stream)).1; [by rewrite app_nil_r|].
        by rewrite /= app_nil_r.
    + exists ((lines_of (concat stream)).1 ++ [c :: rest])%list. split_and!.
      * intros type'. rewrite /Client.asyncIterator iterate_lines //=.
        by rewrite Hr fmap_app.
      * apply Forall_app. split; [done|]. by constructor.
      * rewrite fmap_app concat_app /= app_nil_r.
        rewrite /missing_EOL -{2 3}Hjoin last_app /=.
        assert (last (c :: rest) ≠ Some Client.EOL) as Hlast.
        { intros Hl. apply Hrest. by apply last_Some_elem_of. }
        destruct (last (c :: rest)) as [b|] eqn:Hb.
        -- destruct (Byte.eqb b Client.EOL) eqn:Hbe.
           ++ apply byte_dec_bl in Hbe. by subst.
           ++ by rewrite -!assoc_L.
        -- by apply last_None in Hb.
Qed.
